(** * Posture monitoring: fusion arbiter, warning tracker, frame source

    A shallow embedding of the detection-and-decision pipeline of the
    posture-monitoring web server:

    - [config]           constants of [config.py];
    - [api]              the warning tracker of [routes/api.py] ([predict]);
    - [camera_manager]   the frame source of [utils/camera_manager.py];
    - [camera_model]     the keypoint feature extraction of
                         [models/camera_model.py];
    - [fusion_logic]     the mode dispatch of [models/fusion_logic.py].

    Python dictionaries are finite maps ([gmap]), Python sets are finite
    sets ([gset]), Python [int]s are [Z], exceptions are a sum type. *)

From Stdlib Require Import ZArith QArith Qreals Reals Lra.
From stdpp Require Import gmap strings list pretty.

(** ** config.py *)

Module config.
Local Open Scope Z_scope.

Definition DEFAULT_MODE : string := "auto".

(** Number of consecutive bad postures before warning. *)
Definition WARNING_THRESHOLD : Z := 3.

Definition POSTURE_LABELS : list string :=
  [ "Correct_posture"; "Leaning_backward"; "Leaning_forward"; "Leaning_left";
    "Leaning_right"; "Left_leg_crossed"; "Right_leg_crossed";
    "Sitting_at_front_edge"; "Upper_body_hunched" ].

Definition BAD_POSTURES : list string :=
  [ "Leaning_backward"; "Leaning_forward"; "Leaning_left"; "Leaning_right";
    "Left_leg_crossed"; "Right_leg_crossed"; "Sitting_at_front_edge";
    "Upper_body_hunched" ].

End config.

(** ** routes/api.py: the warning tracker *)

Module api.
Local Open Scope Z_scope.

(** The module-level dictionary [warning_tracker]. *)
Record WarningTracker := {
  last_posture : option string;
  consecutive_count : Z;
  warning_threshold : Z;
  warned_postures : gset string
}.

Definition warning_tracker : WarningTracker :=
  {| last_posture := None;
     consecutive_count := 0;
     warning_threshold := 5;
     warned_postures := ∅ |}.

(** [FusionLogic.is_bad_posture]: [label in config.BAD_POSTURES]. *)
Definition is_bad_posture (label : string) : bool :=
  bool_decide (label ∈ config.BAD_POSTURES).

(** Truth value of [warning_tracker['last_posture']]: [None] and the empty
    string are false. *)
Definition truthy (o : option string) : bool :=
  match o with
  | None => false
  | Some s => negb (String.eqb s "")
  end.

(** [set.discard] of the previous posture, when there is one. *)
Definition discard_last (o : option string) (s : gset string) : gset string :=
  match o with
  | None => s
  | Some lp => s ∖ {[ lp ]}
  end.

Definition in_warned (o : option string) (s : gset string) : bool :=
  match o with
  | None => false
  | Some lp => bool_decide (lp ∈ s)
  end.

(** "Update warning tracker" block of [predict]. *)
Definition update_tracker (wt : WarningTracker) (label : string) : WarningTracker :=
  let is_bad := is_bad_posture label in
  if bool_decide (last_posture wt ≠ Some label) then
    let warned :=
      if truthy (last_posture wt) && in_warned (last_posture wt) (warned_postures wt)
      then discard_last (last_posture wt) (warned_postures wt)
      else warned_postures wt in
    {| last_posture := Some label;
       consecutive_count := if is_bad then 1 else 0;
       warning_threshold := warning_threshold wt;
       warned_postures := warned |}
  else if is_bad then
    {| last_posture := last_posture wt;
       consecutive_count := consecutive_count wt + 1;
       warning_threshold := warning_threshold wt;
       warned_postures := warned_postures wt |}
  else
    {| last_posture := last_posture wt;
       consecutive_count := 0;
       warning_threshold := warning_threshold wt;
       warned_postures := warned_postures wt |}.

(** "Determine warning flag" block of [predict]. *)
Definition warning_flag (wt : WarningTracker) (label : string) : WarningTracker * bool :=
  if is_bad_posture label then
    if bool_decide (label ∈ warned_postures wt) then (wt, true)
    else if consecutive_count wt >=? warning_threshold wt then
      ({| last_posture := last_posture wt;
          consecutive_count := consecutive_count wt;
          warning_threshold := warning_threshold wt;
          warned_postures := warned_postures wt ∪ {[ label ]} |}, true)
    else (wt, false)
  else (wt, false).

(** One call of [predict] as far as the tracker is concerned: the arbiter's
    label comes in, the new tracker and [warning_flag] come out. *)
Definition warning_step (wt : WarningTracker) (label : string) : WarningTracker * bool :=
  warning_flag (update_tracker wt label) label.

(** Successive calls of [predict] on a stream of labels. *)
Fixpoint feed (wt : WarningTracker) (labels : list string) : WarningTracker * list bool :=
  match labels with
  | [] => (wt, [])
  | l :: rest =>
      let '(wt1, w) := warning_step wt l in
      let '(wt2, ws) := feed wt1 rest in
      (wt2, w :: ws)
  end.

Definition tracker_after (labels : list string) : WarningTracker :=
  fst (feed warning_tracker labels).

Definition warnings_of (labels : list string) : list bool :=
  snd (feed warning_tracker labels).

(** Length of the run of [l] that ends a label stream, counted on the
    reversed stream. *)
Fixpoint leading_run (l : string) (rev_labels : list string) : Z :=
  match rev_labels with
  | [] => 0
  | x :: rest => if bool_decide (x = l) then 1 + leading_run l rest else 0
  end.

Definition current_streak (l : string) (labels : list string) : Z :=
  leading_run l (reverse labels).

(** What holds of the tracker after the label stream [labels]: the warned
    set holds at most the last posture, and only once its count has reached
    the threshold; the count is the length of the current run of a bad
    posture, and zero for a good one. *)
Definition tracker_inv (labels : list string) (wt : WarningTracker) : Prop :=
  warning_threshold wt = warning_threshold warning_tracker ∧
  (∀ x, x ∈ warned_postures wt →
        last_posture wt = Some x ∧ is_bad_posture x = true ∧
        warning_threshold wt ≤ consecutive_count wt) ∧
  match last_posture wt with
  | None => labels = [] ∧ consecutive_count wt = 0
  | Some l =>
      head (reverse labels) = Some l ∧
      consecutive_count wt = if is_bad_posture l then current_streak l labels else 0
  end.

End api.

(** ** Python exceptions *)

Inductive exn :=
| ValueError (msg : string)
| IndexError (msg : string)
| KeyError (msg : string)
| LibraryError (msg : string).  (* raised inside cv2, YOLO or scikit-learn *)

(** [str(e)] *)
Definition str (e : exn) : string :=
  match e with
  | ValueError m | IndexError m | KeyError m | LibraryError m => m
  end.

(** A call either raises or returns. *)
Definition result (A : Type) : Type := (exn + A)%type.

Definition raise {A} (e : exn) : result A := inl e.
Definition ret {A} (a : A) : result A := inr a.

Definition bind {A B} (r : result A) (k : A → result B) : result B :=
  match r with
  | inl e => inl e
  | inr a => k a
  end.

Declare Scope result_scope.
Delimit Scope result_scope with result.
Notation "'let!' x ':=' r 'in' k" := (bind r (λ x, k))
  (at level 10, x pattern, r at level 100, k at level 200) : result_scope.

(** ** utils/camera_manager.py: the frame source *)

Module camera_manager.
Local Open Scope Z_scope.

(** What [cv2.VideoCapture(index)] does on this machine: it raises, or it
    hands back a capture object that is open or not. *)
Inductive video_capture :=
| vc_raises (e : exn)
| vc_returns (opened : bool).

(** The capture device as the manager sees it: the outcome of opening it,
    and whether setting and reading its properties raises. *)
Record Device := {
  dev_open : video_capture;
  dev_props : option exn
}.

Section manager.
Context {Frame : Type}.

Record CameraManager := {
  camera_index : Z;
  width : Z;
  height : Z;
  cap : option bool;              (* [None], or a capture and its [isOpened()] *)
  is_opened : bool;
  current_frame : option Frame;
  inference_mode : bool;
  capture_thread : bool;          (* the capture thread has been started *)
  running : bool
}.

Definition set_is_opened (b : bool) (self : CameraManager) : CameraManager :=
  {| camera_index := camera_index self; width := width self; height := height self;
     cap := cap self; is_opened := b; current_frame := current_frame self;
     inference_mode := inference_mode self; capture_thread := capture_thread self;
     running := running self |}.

Definition set_cap (c : option bool) (self : CameraManager) : CameraManager :=
  {| camera_index := camera_index self; width := width self; height := height self;
     cap := c; is_opened := is_opened self; current_frame := current_frame self;
     inference_mode := inference_mode self; capture_thread := capture_thread self;
     running := running self |}.

Definition set_current_frame (f : option Frame) (self : CameraManager) : CameraManager :=
  {| camera_index := camera_index self; width := width self; height := height self;
     cap := cap self; is_opened := is_opened self; current_frame := f;
     inference_mode := inference_mode self; capture_thread := capture_thread self;
     running := running self |}.

Definition set_inference_mode (b : bool) (self : CameraManager) : CameraManager :=
  {| camera_index := camera_index self; width := width self; height := height self;
     cap := cap self; is_opened := is_opened self; current_frame := current_frame self;
     inference_mode := b; capture_thread := capture_thread self;
     running := running self |}.

Definition set_thread (started run : bool) (self : CameraManager) : CameraManager :=
  {| camera_index := camera_index self; width := width self; height := height self;
     cap := cap self; is_opened := is_opened self; current_frame := current_frame self;
     inference_mode := inference_mode self; capture_thread := started;
     running := run |}.

(** The [try] block of [_init_camera]: the manager as the block leaves it,
    and the exception that left the block, if any. *)
Definition _init_camera_try (dev : Device) (self : CameraManager)
  : CameraManager * option exn :=
  match dev_open dev with
  | vc_raises e => (self, Some e)
  | vc_returns opened =>
      let self := set_cap (Some opened) self in
      if negb opened then (set_is_opened false self, None)
      else
        match dev_props dev with
        | Some e => (self, Some e)
        | None => (set_thread true true (set_is_opened true self), None)
        end
  end.

(** [_init_camera]: any exception is logged and swallowed. *)
Definition _init_camera (dev : Device) (self : CameraManager) : CameraManager :=
  match _init_camera_try dev self with
  | (self, None) => self
  | (self, Some _) => set_is_opened false self
  end.

(** [x or default] on an optional integer argument. *)
Definition or_default (x : option Z) (d : Z) : Z :=
  match x with
  | None => d
  | Some v => if v =? 0 then d else v
  end.

(** [CameraManager.__init__], with [config.CAMERA_INDEX = 0],
    [CAMERA_WIDTH = 1280] and [CAMERA_HEIGHT = 720]. *)
Definition __init__ (dev : Device) (index w h : option Z) : result CameraManager :=
  let self :=
    {| camera_index := or_default index 0;
       width := or_default w 1280;
       height := or_default h 720;
       cap := None; is_opened := false; current_frame := None;
       inference_mode := false; capture_thread := false; running := false |} in
  ret (_init_camera dev self).

(** [frame.copy()] yields an equal frame. *)
Definition get_frame (self : CameraManager) : option Frame :=
  current_frame self.

Definition capture_for_inference (self : CameraManager)
  : CameraManager * result (option Frame) :=
  let self := set_inference_mode true self in
  let inference_frame := current_frame self in
  (set_inference_mode false self, ret inference_frame).

Definition cap_isOpened (self : CameraManager) : bool :=
  match cap self with
  | None => false
  | Some o => o
  end.

Definition is_available (self : CameraManager) : bool :=
  is_opened self && bool_decide (cap self ≠ None) && cap_isOpened self.

(** The dictionary returned by [get_status]. *)
Record Status := {
  st_is_opened : bool;
  st_is_available : bool;
  st_camera_index : Z;
  st_width : Z;
  st_height : Z;
  st_inference_mode : bool;
  st_has_frame : bool
}.

Definition get_status (self : CameraManager) : Status :=
  {| st_is_opened := is_opened self;
     st_is_available := is_available self;
     st_camera_index := camera_index self;
     st_width := width self;
     st_height := height self;
     st_inference_mode := inference_mode self;
     st_has_frame := bool_decide (is_Some (current_frame self)) |}.

(** [release]: the thread is told to stop, the capture is released. *)
Definition release (self : CameraManager) : CameraManager :=
  let self := set_thread false false self in
  let self := set_cap (match cap self with Some _ => Some false | None => None end) self in
  set_is_opened false self.

(** What can happen to a manager: a caller invokes a method, or the capture
    thread (when there is one) stores a frame or reopens the device. *)
Inductive action :=
| call_get_frame
| call_capture_for_inference
| call_is_available
| call_get_status
| call_release
| thread_store (f : Frame)
| thread_reconnect (opened : bool).

Inductive response :=
| resp_frame (f : result (option Frame))
| resp_bool (b : bool)
| resp_status (s : Status)
| resp_none.

(** One action; [None] when the action cannot happen in this state (the
    capture thread acts only while it runs). *)
Definition step (self : CameraManager) (a : action) : option (CameraManager * response) :=
  match a with
  | call_get_frame => Some (self, resp_frame (ret (get_frame self)))
  | call_capture_for_inference =>
      let '(self', r) := capture_for_inference self in Some (self', resp_frame r)
  | call_is_available => Some (self, resp_bool (is_available self))
  | call_get_status => Some (self, resp_status (get_status self))
  | call_release => Some (release self, resp_none)
  | thread_store f =>
      if capture_thread self && running self && cap_isOpened self
      then Some (set_current_frame (Some f) self, resp_none)
      else None
  | thread_reconnect opened =>
      if capture_thread self && running self && negb (cap_isOpened self)
      then Some (set_cap (Some opened) self, resp_none)
      else None
  end.

(** A run of actions, all of which can happen. *)
Fixpoint run (self : CameraManager) (acts : list action) : option CameraManager :=
  match acts with
  | [] => Some self
  | a :: rest =>
      match step self a with
      | None => None
      | Some (self', _) => run self' rest
      end
  end.

(** The frame in the shared slot after a run: the last one the capture
    thread stored, or the one held before. *)
Definition last_stored (held : option Frame) (acts : list action) : option Frame :=
  foldl (λ cur a, match a with thread_store f => Some f | _ => cur end) held acts.

(** The actions of callers, as opposed to those of the capture thread. *)
Definition is_call (a : action) : bool :=
  match a with
  | thread_store _ | thread_reconnect _ => false
  | _ => true
  end.

(** The state a failed open leaves behind: not opened, no frame, no thread. *)
Definition degraded (self : CameraManager) : Prop :=
  is_opened self = false ∧ current_frame self = None ∧ capture_thread self = false.

(** Opening the device failed: [VideoCapture] raised, or the capture it
    returned is not open. *)
Definition open_fails (dev : Device) : Prop :=
  match dev_open dev with
  | vc_raises _ => True
  | vc_returns opened => opened = false
  end.

End manager.

Arguments CameraManager : clear implicits.
Arguments action : clear implicits.
Arguments response : clear implicits.

End camera_manager.

(** ** Floating-point arithmetic, kept abstract

    The classifiers and the arbiter compute on Python floats.  The code is
    embedded once, over any carrier [F] with the operations it uses; the
    carriers used below are the rationals [Q] (arbiter), the reals [R] and
    symbolic expressions (feature extraction). *)

Class Num (F : Type) := {
  lit : Q → F;            (* a numeric literal *)
  fadd : F → F → F;
  fsub : F → F → F;
  fmul : F → F → F;
  fdiv : F → F → F
}.

Class Cmp (F : Type) := {
  fgt : F → F → bool;     (* [>]  *)
  fge : F → F → bool      (* [>=] *)
}.

(** What the arbiter's [max] needs of [>]: it holds of IEEE comparison,
    not-a-number included. *)
Class CmpLaws (F : Type) `{Cmp F} : Prop := {
  fgt_irrefl : ∀ x, fgt x x = false;
  fgt_trans : ∀ x y z, fgt x y = true → fgt y z = true → fgt x z = true
}.

(** [>] on numbers that are all comparable (no not-a-number): what is not
    above a bound is below whatever is above it. *)
Class CmpTotal (F : Type) `{Cmp F} : Prop := {
  fgt_neg_trans : ∀ x y z, fgt x y = true → fgt z y = false → fgt x z = true
}.

Class Elementary (F : Type) := {
  fsqrt : F → F;          (* [np.sqrt], [np.linalg.norm] *)
  fsquare : F → F;        (* [x ** 2] *)
  fabs : F → F;           (* [abs] *)
  arccos : F → F;         (* [np.arccos] *)
  clip : F → F → F → F;   (* [np.clip(x, lo, hi)] *)
  degrees : F → F         (* [np.degrees] *)
}.

Declare Scope float_scope.
Delimit Scope float_scope with fl.
Infix "+" := fadd : float_scope.
Infix "-" := fsub : float_scope.
Infix "*" := fmul : float_scope.
Infix "/" := fdiv : float_scope.

#[export] Instance Q_Num : Num Q :=
  {| lit := λ q, q; fadd := Qplus; fsub := Qminus; fmul := Qmult; fdiv := Qdiv |}.

#[export] Instance Q_Cmp : Cmp Q :=
  {| fgt := λ x y, negb (Qle_bool x y); fge := λ x y, Qle_bool y x |}.

#[export] Instance R_Num : Num R :=
  {| lit := Q2R; fadd := Rplus; fsub := Rminus; fmul := Rmult; fdiv := Rdiv |}.

#[export] Instance R_Cmp : Cmp R :=
  {| fgt := λ x y, if Rgt_dec x y then true else false;
     fge := λ x y, if Rge_dec x y then true else false |}.

#[export] Instance R_Elementary : Elementary R :=
  {| fsqrt := sqrt;
     fsquare := Rsqr;
     fabs := Rabs;
     arccos := acos;
     clip := λ x lo hi, Rmin (Rmax x lo) hi;
     degrees := λ x, (x * 180 / PI)%R |}.

(** Symbolic carrier: the expression a feature is computed by, over the
    coordinates of the keypoints. *)
Inductive expr :=
| Var (keypoint : nat) (axis : bool)   (* [keypoints[k, 0]] or [keypoints[k, 1]] *)
| Lit (q : Q)
| Add (a b : expr)
| Sub (a b : expr)
| Mul (a b : expr)
| Div (a b : expr)
| Sqrt (a : expr)
| Square (a : expr)
| Abs (a : expr)
| Arccos (a : expr)
| Clip (a lo hi : expr)
| Degrees (a : expr).

#[export] Instance expr_Num : Num expr :=
  {| lit := Lit; fadd := Add; fsub := Sub; fmul := Mul; fdiv := Div |}.

#[export] Instance expr_Elementary : Elementary expr :=
  {| fsqrt := Sqrt; fsquare := Square; fabs := Abs; arccos := Arccos;
     clip := Clip; degrees := Degrees |}.

(** The value of an expression in any carrier, given the coordinates. *)
Fixpoint eval {F} `{Num F} `{Elementary F} (ρ : nat → bool → F) (e : expr) : F :=
  match e with
  | Var k ax => ρ k ax
  | Lit q => lit q
  | Add a b => fadd (eval ρ a) (eval ρ b)
  | Sub a b => fsub (eval ρ a) (eval ρ b)
  | Mul a b => fmul (eval ρ a) (eval ρ b)
  | Div a b => fdiv (eval ρ a) (eval ρ b)
  | Sqrt a => fsqrt (eval ρ a)
  | Square a => fsquare (eval ρ a)
  | Abs a => fabs (eval ρ a)
  | Arccos a => arccos (eval ρ a)
  | Clip a lo hi => clip (eval ρ a) (eval ρ lo) (eval ρ hi)
  | Degrees a => degrees (eval ρ a)
  end.

(** The small constant added to denominators, [1e-6]. *)
Definition epsilon : Q := 1 # 1000000.

(** Expressions that are non-negative whatever the coordinates. *)
Fixpoint nonneg (e : expr) : bool :=
  match e with
  | Lit q => Qle_bool 0 q
  | Sqrt _ | Square _ | Abs _ => true
  | Add a b | Mul a b => nonneg a && nonneg b
  | Div a b => nonneg a && nonneg b
  | _ => false
  end.

(** A denominator is guarded when it is [x + 1e-6] with [x] non-negative,
    or a positive literal (the [2] of a midpoint). *)
Definition guarded_denominator (d : expr) : bool :=
  match d with
  | Add x (Lit q) => nonneg x && Qeq_bool q epsilon
  | Lit q => negb (Qle_bool q 0)
  | _ => false
  end.

(** Every division in the expression has a guarded denominator. *)
Fixpoint guarded (e : expr) : bool :=
  match e with
  | Var _ _ | Lit _ => true
  | Add a b | Sub a b | Mul a b => guarded a && guarded b
  | Div a b => guarded a && guarded b && guarded_denominator b
  | Sqrt a | Square a | Abs a | Arccos a | Degrees a => guarded a
  | Clip a lo hi => guarded a && guarded lo && guarded hi
  end.

(** A denominator as the feature code writes them: a non-negative quantity
    plus [1e-6], or the [2] of a midpoint. *)
Definition adds_epsilon (d : expr) : Prop :=
  d = Lit 2 ∨ ∃ x, nonneg x = true ∧ d = Add x (Lit epsilon).

(** The denominators of the divisions in an expression. *)
Fixpoint denominators (e : expr) : list expr :=
  match e with
  | Var _ _ | Lit _ => []
  | Add a b | Sub a b | Mul a b => denominators a ++ denominators b
  | Div a b => b :: denominators a ++ denominators b
  | Sqrt a | Square a | Abs a | Arccos a | Degrees a => denominators a
  | Clip a lo hi => denominators a ++ denominators lo ++ denominators hi
  end.

(** ** models/camera_model.py: keypoint features *)

Module camera_model.

(** YOLO keypoint indices (COCO format): nose, eyes, ears, shoulders, hips,
    knees, ankles. *)
Definition RELEVANT_KEYPOINTS : list nat :=
  [0; 1; 2; 3; 4; 5; 6; 11; 12; 13; 14; 15; 16].

Section features.
Context {F : Type} `{Num F} `{Elementary F}.
Local Open Scope float_scope.
Local Open Scope result_scope.

(** [keypoints[idx]] on an array of shape [(n, 2)]. *)
Definition getitem (keypoints : list (F * F)) (idx : nat) : result (F * F) :=
  match keypoints !! idx with
  | Some p => ret p
  | None =>
      raise (IndexError ("index " +:+ pretty idx +:+
                         " is out of bounds for axis 0 with size " +:+
                         pretty (length keypoints)))
  end.

Definition dot (v1 v2 : F * F) : F := v1.1 * v2.1 + v1.2 * v2.2.

Definition norm (v : F * F) : F := fsqrt (v.1 * v.1 + v.2 * v.2).

(** Angle between three points, in degrees. *)
Definition _calculate_angle (p1 p2 p3 : F * F) : F :=
  let v1 := (p1.1 - p2.1, p1.2 - p2.2) in
  let v2 := (p3.1 - p2.1, p3.2 - p2.2) in
  let cos_angle := dot v1 v2 / (norm v1 * norm v2 + lit epsilon) in
  let angle := arccos (clip cos_angle (lit (-1)) (lit 1)) in
  degrees angle.

(** Euclidean distance between two points. *)
Definition _calculate_distance (p1 p2 : F * F) : F :=
  fsqrt (fsquare (p1.1 - p2.1) + fsquare (p1.2 - p2.2)).

(** The dictionary [features] of [_extract_derived_features], in insertion
    order. *)
Definition _extract_derived_features (keypoints : list (F * F))
  : result (list (string * F)) :=
  let! nose := getitem keypoints 0 in
  let! left_shoulder := getitem keypoints 5 in
  let! right_shoulder := getitem keypoints 6 in
  let! left_hip := getitem keypoints 11 in
  let! right_hip := getitem keypoints 12 in
  let! left_knee := getitem keypoints 13 in
  let! right_knee := getitem keypoints 14 in
  let! left_ankle := getitem keypoints 15 in
  let! right_ankle := getitem keypoints 16 in
  let shoulder_center :=
    ((left_shoulder.1 + right_shoulder.1) / lit 2,
     (left_shoulder.2 + right_shoulder.2) / lit 2) in
  let hip_center :=
    ((left_hip.1 + right_hip.1) / lit 2,
     (left_hip.2 + right_hip.2) / lit 2) in
  let back_angle := _calculate_angle nose shoulder_center hip_center in
  let left_knee_angle := _calculate_angle left_hip left_knee left_ankle in
  let right_knee_angle := _calculate_angle right_hip right_knee right_ankle in
  let left_hip_angle := _calculate_angle left_shoulder left_hip left_knee in
  let right_hip_angle := _calculate_angle right_shoulder right_hip right_knee in
  let torso_length := _calculate_distance shoulder_center hip_center + lit epsilon in
  let nose_to_shoulder_dist := _calculate_distance nose shoulder_center / torso_length in
  let shoulder_width := _calculate_distance left_shoulder right_shoulder / torso_length in
  let hip_width := _calculate_distance left_hip right_hip / torso_length in
  let shoulder_y_diff := fabs (left_shoulder.2 - right_shoulder.2) in
  let shoulder_x_diff := fabs (left_shoulder.1 - right_shoulder.1) in
  let hip_y_diff := fabs (left_hip.2 - right_hip.2) in
  let hip_x_diff := fabs (left_hip.1 - right_hip.1) in
  let nose_shoulder_y_diff := nose.2 - shoulder_center.2 in
  let shoulder_hip_y_diff := shoulder_center.2 - hip_center.2 in
  let knee_distance := _calculate_distance left_knee right_knee / torso_length in
  let ankle_distance := _calculate_distance left_ankle right_ankle / torso_length in
  let knee_ankle_ratio := knee_distance / (ankle_distance + lit epsilon) in
  let shoulder_hip_ratio := shoulder_width / (hip_width + lit epsilon) in
  ret [ ("back_angle", back_angle);
        ("left_knee_angle", left_knee_angle);
        ("right_knee_angle", right_knee_angle);
        ("left_hip_angle", left_hip_angle);
        ("right_hip_angle", right_hip_angle);
        ("nose_to_shoulder_dist", nose_to_shoulder_dist);
        ("shoulder_width", shoulder_width);
        ("hip_width", hip_width);
        ("shoulder_y_diff", shoulder_y_diff);
        ("shoulder_x_diff", shoulder_x_diff);
        ("hip_y_diff", hip_y_diff);
        ("hip_x_diff", hip_x_diff);
        ("nose_shoulder_y_diff", nose_shoulder_y_diff);
        ("shoulder_hip_y_diff", shoulder_hip_y_diff);
        ("knee_distance", knee_distance);
        ("ankle_distance", ankle_distance);
        ("knee_ankle_ratio", knee_ankle_ratio);
        ("shoulder_hip_ratio", shoulder_hip_ratio) ].

(** The loop over [RELEVANT_KEYPOINTS]: both coordinates of each. *)
Fixpoint raw_keypoints (keypoints : list (F * F)) (idxs : list nat) : result (list F) :=
  match idxs with
  | [] => ret []
  | idx :: rest =>
      let! p := getitem keypoints idx in
      let! tail := raw_keypoints keypoints rest in
      ret (p.1 :: p.2 :: tail)
  end.

Definition _extract_features (keypoints : list (F * F)) : result (list F) :=
  let! features_list := raw_keypoints keypoints RELEVANT_KEYPOINTS in
  let! derived := _extract_derived_features keypoints in
  ret (features_list ++ map snd derived).

(** The coordinates an index list selects, for arrays that hold them all. *)
Definition coordinates_of (keypoints : list (F * F)) (idxs : list nat) : list F :=
  flat_map (λ idx, match keypoints !! idx with
                   | Some p => [p.1; p.2]
                   | None => []
                   end) idxs.

(** The first index of [idxs] that an array of [n] rows does not have. *)
Definition first_out_of_bounds (n : nat) (idxs : list nat) : option nat :=
  head (filter (λ idx, n ≤ idx)%nat idxs).

(** Coordinates as a valuation of the symbolic variables. *)
Definition valuation (keypoints : list (F * F)) (k : nat) (axis : bool) : F :=
  match keypoints !! k with
  | Some p => if axis then p.2 else p.1
  | None => lit 0
  end.

End features.

(** The names of the derived features, in the order of the vector. *)
Definition derived_names : list string :=
  [ "back_angle"; "left_knee_angle"; "right_knee_angle"; "left_hip_angle";
    "right_hip_angle"; "nose_to_shoulder_dist"; "shoulder_width"; "hip_width";
    "shoulder_y_diff"; "shoulder_x_diff"; "hip_y_diff"; "hip_x_diff";
    "nose_shoulder_y_diff"; "shoulder_hip_y_diff"; "knee_distance";
    "ankle_distance"; "knee_ankle_ratio"; "shoulder_hip_ratio" ].

(** A keypoint moved by [(dx, dy)] in the image. *)
Definition translate (dx dy : R) (p : R * R) : R * R := ((p.1 + dx)%R, (p.2 + dy)%R).

(** Seventeen keypoints whose coordinates are the symbolic variables. *)
Definition symbolic_keypoints : list (expr * expr) :=
  map (λ k, (Var k false, Var k true)) (seq 0 17).

(** The feature vector as expressions over the coordinates. *)
Definition symbolic_features : list expr :=
  Eval vm_compute in
    match _extract_features symbolic_keypoints with
    | inr fs => fs
    | inl _ => []
    end.

(** The YOLO pose model and the random forest behind the camera adapter. *)
Record CameraModel {Frame F : Type} := {
  is_loaded : bool;
  (** [results[0].keypoints.xy]: one keypoint array per detected person *)
  yolo_model : option Frame → result (list (list (F * F)));
  (** [rf_model.predict], [inverse_transform] and [predict_proba(...).max()] *)
  rf_classify : list F → result (string * F);
  (** [rf_model.predict_proba(...)[0]] *)
  rf_predict_proba : list F → result (list F);
  classes_ : list string
}.
Arguments CameraModel : clear implicits.

Section adapter.
Context {Frame F : Type} `{Num F} `{Elementary F}.
Local Open Scope result_scope.

(** [{label: float(prob) for label, prob in zip(classes_, probabilities)}] *)
Definition prob_dict (classes : list string) (probabilities : list F) : gmap string F :=
  foldl (λ d kv, <[ kv.1 := kv.2 ]> d) ∅ (zip classes probabilities).

Definition predict (self : CameraModel Frame F) (frame : option Frame)
  : result (string * F) :=
  if negb (is_loaded self) then
    raise (ValueError "Model is not loaded. Cannot make predictions.")
  else
    let! persons := yolo_model self frame in
    match persons with
    | [] => raise (ValueError "No person detected in frame")
    | keypoints :: _ =>
        if bool_decide (length keypoints ≠ 17%nat) then
          raise (ValueError ("Invalid keypoints shape: (" +:+
                             pretty (length keypoints) +:+ ", 2)"))
        else
          let! features := _extract_features keypoints in
          rf_classify self features
    end.

Definition get_all_probabilities (self : CameraModel Frame F) (frame : option Frame)
  : result (gmap string F) :=
  if negb (is_loaded self) then raise (ValueError "Model is not loaded.")
  else
    let! persons := yolo_model self frame in
    match persons with
    | [] => raise (ValueError "No person detected in frame")
    | keypoints :: _ =>
        let! features := _extract_features keypoints in
        let! probabilities := rf_predict_proba self features in
        ret (prob_dict (classes_ self) probabilities)
    end.

End adapter.

End camera_model.

(** ** models/sensor_model.py *)

Module sensor_model.

Record SensorModel {F : Type} := {
  is_loaded : bool;
  (** [model.predict], [inverse_transform] and [predict_proba(...).max()] *)
  classify : list F → result (string * F);
  (** [model.predict_proba(...)[0]] *)
  predict_proba : list F → result (list F);
  classes_ : list string
}.
Arguments SensorModel : clear implicits.

Section adapter.
Context {F : Type}.
Local Open Scope result_scope.

Definition predict (self : SensorModel F) (sensor_values : list F)
  : result (string * F) :=
  if negb (is_loaded self) then
    raise (ValueError "Model is not loaded. Cannot make predictions.")
  else if bool_decide (length sensor_values ≠ 7%nat) then
    raise (ValueError ("Expected 7 sensor values, got " +:+
                       pretty (length sensor_values)))
  else classify self sensor_values.

Definition get_all_probabilities (self : SensorModel F) (sensor_values : list F)
  : result (gmap string F) :=
  if negb (is_loaded self) then raise (ValueError "Model is not loaded.")
  else if bool_decide (length sensor_values ≠ 7%nat) then
    raise (ValueError ("Expected 7 sensor values, got " +:+
                       pretty (length sensor_values)))
  else
    let! probabilities := predict_proba self sensor_values in
    ret (camera_model.prob_dict (classes_ self) probabilities).

End adapter.

End sensor_model.

(** ** models/fusion_logic.py: the arbiter *)

(** What the arbiter needs of an adapter: [predict] and
    [get_all_probabilities]. *)
Record Model (Input F : Type) := {
  model_predict : Input → result (string * F);
  model_get_all_probabilities : Input → result (gmap string F)
}.
Arguments model_predict {Input F}.
Arguments model_get_all_probabilities {Input F}.

Definition get_sensor_model {F} (m : sensor_model.SensorModel F) : Model (list F) F :=
  {| model_predict := sensor_model.predict m;
     model_get_all_probabilities := sensor_model.get_all_probabilities m |}.

Definition get_camera_model {Frame F} `{Num F} `{Elementary F}
    (m : camera_model.CameraModel Frame F) : Model (option Frame) F :=
  {| model_predict := camera_model.predict m;
     model_get_all_probabilities := camera_model.get_all_probabilities m |}.

(** Calls into the adapters, in the order they are made. *)
Inductive event :=
| sensor_predict
| sensor_get_all_probabilities
| camera_predict
| camera_get_all_probabilities.

(** A computation of the arbiter: it extends the log of adapter calls and
    raises or returns. *)
Definition M (A : Type) : Type := list event → result A * list event.

Definition M_ret {A} (a : A) : M A := λ log, (inr a, log).

Definition M_raise {A} (e : exn) : M A := λ log, (inl e, log).

Definition M_bind {A B} (m : M A) (k : A → M B) : M B :=
  λ log,
    match m log with
    | (inl e, log') => (inl e, log')
    | (inr a, log') => k a log'
    end.

(** A call to an adapter: logged, then whatever the adapter does. *)
Definition M_call {A} (ev : event) (r : result A) : M A :=
  λ log, (r, log ++ [ev]).

(** [try: m  except Exception as e: ...] with the outcome as a value. *)
Definition M_try {A} (m : M A) : M (result A) :=
  λ log, let '(r, log') := m log in (inr r, log').

Declare Scope M_scope.
Delimit Scope M_scope with M.
Notation "'call!' x ':=' m 'in' k" := (M_bind m (λ x, k))
  (at level 10, x pattern, m at level 100, k at level 200) : M_scope.

Module fusion_logic.

(** The values stored in the metadata dictionary. *)
Inductive meta {F : Type} :=
| MStr (s : string)
| MFloat (x : F)
| MBool (b : bool)
| MDict (d : list (string * F)).
Arguments meta : clear implicits.

Record FusionLogic {Frame F : Type} := {
  sensor_model : Model (list F) F;
  camera_model : Model (option Frame) F;
  mode : string;
  auto_threshold : F;
  fusion_weights : gmap string F
}.
Arguments FusionLogic : clear implicits.

Section arbiter.
Context {Frame F : Type} `{Num F} `{Cmp F}.

(** The order in which Python iterates over a set of strings. *)
Variable set_iter : gset string → list string.

Local Open Scope float_scope.
Local Open Scope M_scope.

Definition update_config (self : FusionLogic Frame F)
    (new_mode : option string) (new_threshold : option F)
    (new_weights : option (gmap string F)) : FusionLogic Frame F :=
  {| sensor_model := sensor_model self;
     camera_model := camera_model self;
     mode := match new_mode with
             | Some m => if String.eqb m "" then mode self else m
             | None => mode self
             end;
     auto_threshold := default (auto_threshold self) new_threshold;
     fusion_weights := match new_weights with
                       | Some w => if bool_decide (w = ∅) then fusion_weights self else w
                       | None => fusion_weights self
                       end |}.

(** Mode 1: sensor only. *)
Definition predict_sensor_only (self : FusionLogic Frame F) (sensor_values : list F)
  : M (string * F * gmap string (meta F)) :=
  call! (label, confidence) :=
    M_call sensor_predict (model_predict (sensor_model self) sensor_values) in
  let metadata : gmap string (meta F) :=
    <[ "camera_used" := MBool false ]>
    (<[ "sensor_confidence" := MFloat confidence ]>
    (<[ "mode" := MStr "sensor_only" ]> ∅)) in
  M_ret (label, confidence, metadata).

(** Mode 2: camera only. *)
Definition predict_camera_only (self : FusionLogic Frame F) (camera_frame : option Frame)
  : M (string * F * gmap string (meta F)) :=
  match camera_frame with
  | None => M_raise (ValueError "Camera frame is required for camera_only mode")
  | Some _ =>
      call! (label, confidence) :=
        M_call camera_predict (model_predict (camera_model self) camera_frame) in
      let metadata : gmap string (meta F) :=
        <[ "camera_used" := MBool true ]>
        (<[ "camera_confidence" := MFloat confidence ]>
        (<[ "mode" := MStr "camera_only" ]> ∅)) in
      M_ret (label, confidence, metadata)
  end.

(** Auto: sensor first, camera when the sensor confidence is low. *)
Definition predict_auto (self : FusionLogic Frame F) (sensor_values : list F)
    (camera_frame : option Frame) : M (string * F * gmap string (meta F)) :=
  call! (sensor_label, sensor_confidence) :=
    M_call sensor_predict (model_predict (sensor_model self) sensor_values) in
  let metadata : gmap string (meta F) :=
    <[ "sensor_label" := MStr sensor_label ]>
    (<[ "sensor_confidence" := MFloat sensor_confidence ]>
    (<[ "mode" := MStr "auto" ]> ∅)) in
  if fge sensor_confidence (auto_threshold self) then
    M_ret (sensor_label, sensor_confidence, <[ "camera_used" := MBool false ]> metadata)
  else
    match camera_frame with
    | None =>
        M_ret (sensor_label, sensor_confidence, <[ "camera_used" := MBool false ]> metadata)
    | Some _ =>
        call! attempt :=
          M_try (M_call camera_predict (model_predict (camera_model self) camera_frame)) in
        match attempt with
        | inr (camera_label, camera_confidence) =>
            M_ret (camera_label, camera_confidence,
                   <[ "camera_label" := MStr camera_label ]>
                   (<[ "camera_confidence" := MFloat camera_confidence ]>
                   (<[ "camera_used" := MBool true ]> metadata)))
        | inl e =>
            M_ret (sensor_label, sensor_confidence,
                   <[ "camera_error" := MStr (str e) ]>
                   (<[ "camera_used" := MBool false ]> metadata))
        end
    end.

(** [d[k] = v] on a dictionary kept in insertion order. *)
Fixpoint dict_set (d : list (string * F)) (k : string) (v : F) : list (string * F) :=
  match d with
  | [] => [(k, v)]
  | (k', v') :: rest =>
      if bool_decide (k' = k) then (k', v) :: rest else (k', v') :: dict_set rest k v
  end.

Fixpoint dict_get (d : list (string * F)) (k : string) : option F :=
  match d with
  | [] => None
  | (k', v') :: rest => if bool_decide (k' = k) then Some v' else dict_get rest k
  end.

(** The weighted sum of one label. *)
Definition fused_prob (sensor_weight camera_weight : F)
    (sensor_probs camera_probs : gmap string F) (label : string) : F :=
  let sensor_prob := default (lit 0) (sensor_probs !! label) in
  let camera_prob := default (lit 0) (camera_probs !! label) in
  (sensor_weight * sensor_prob) + (camera_weight * camera_prob).

(** The loop [for label in all_labels: fused_probs[label] = ...]. *)
Definition combine (sensor_weight camera_weight : F)
    (sensor_probs camera_probs : gmap string F) (all_labels : list string)
  : list (string * F) :=
  foldl (λ fused_probs label,
           dict_set fused_probs label
             (fused_prob sensor_weight camera_weight sensor_probs camera_probs label))
        [] all_labels.

(** [max(d, key=d.get)]: the first key, in iteration order, whose value no
    later value exceeds; a later item replaces the best one only when its
    value is [>] the best value. *)
Fixpoint max_from (best : string * F) (items : list (string * F)) : string :=
  match items with
  | [] => best.1
  | kv :: rest => if fgt kv.2 best.2 then max_from kv rest else max_from best rest
  end.

Definition py_max (d : list (string * F)) : result string :=
  match d with
  | [] => raise (ValueError "max() arg is an empty sequence")
  | kv :: rest => ret (max_from kv rest)
  end.

(** [d[k]] *)
Definition dict_item (d : list (string * F)) (k : string) : result F :=
  match dict_get d k with
  | Some v => ret v
  | None => raise (KeyError k)
  end.

(** The part of [predict_fusion] after both distributions are known. *)
Definition fuse (self : FusionLogic Frame F)
    (sensor_probs camera_probs : gmap string F) (metadata : gmap string (meta F))
  : result (string * F * gmap string (meta F)) :=
  let sensor_weight := default (lit (4 # 10)) (fusion_weights self !! "sensor") in
  let camera_weight := default (lit (6 # 10)) (fusion_weights self !! "camera") in
  let all_labels := dom sensor_probs ∪ dom camera_probs in
  let fused_probs :=
    combine sensor_weight camera_weight sensor_probs camera_probs (set_iter all_labels) in
  (let! final_label := py_max fused_probs in
   let! final_confidence := dict_item fused_probs final_label in
   ret (final_label, final_confidence,
        <[ "weights" := MDict [("sensor", sensor_weight); ("camera", camera_weight)] ]>
        (<[ "fused_confidence" := MFloat final_confidence ]>
        (<[ "fused_label" := MStr final_label ]> metadata))))%result.

(** Fusion: both adapters, weighted voting. *)
Definition predict_fusion (self : FusionLogic Frame F) (sensor_values : list F)
    (camera_frame : option Frame) : M (string * F * gmap string (meta F)) :=
  call! (sensor_label, sensor_confidence) :=
    M_call sensor_predict (model_predict (sensor_model self) sensor_values) in
  let metadata : gmap string (meta F) :=
    <[ "camera_used" := MBool true ]>
    (<[ "sensor_confidence" := MFloat sensor_confidence ]>
    (<[ "sensor_label" := MStr sensor_label ]>
    (<[ "mode" := MStr "fusion" ]> ∅))) in
  call! attempt :=
    M_try (M_call camera_predict (model_predict (camera_model self) camera_frame)) in
  match attempt with
  | inl e =>
      M_ret (sensor_label, sensor_confidence,
             <[ "camera_error" := MStr (str e) ]>
             (<[ "camera_used" := MBool false ]> metadata))
  | inr (camera_label, camera_confidence) =>
      let metadata :=
        <[ "camera_confidence" := MFloat camera_confidence ]>
        (<[ "camera_label" := MStr camera_label ]> metadata) in
      call! sensor_probs :=
        M_call sensor_get_all_probabilities
          (model_get_all_probabilities (sensor_model self) sensor_values) in
      call! camera_probs :=
        M_call camera_get_all_probabilities
          (model_get_all_probabilities (camera_model self) camera_frame) in
      λ log, (fuse self sensor_probs camera_probs metadata, log)
  end.

(** Main prediction method: routes to the configured mode. *)
Definition predict (self : FusionLogic Frame F) (sensor_values : list F)
    (camera_frame : option Frame) : M (string * F * gmap string (meta F)) :=
  if String.eqb (mode self) "sensor_only" then
    predict_sensor_only self sensor_values
  else if String.eqb (mode self) "camera_only" then
    match camera_frame with
    | None => predict_sensor_only self sensor_values
    | Some _ => predict_camera_only self camera_frame
    end
  else if String.eqb (mode self) "auto" then
    predict_auto self sensor_values camera_frame
  else if String.eqb (mode self) "fusion" then
    match camera_frame with
    | None => predict_sensor_only self sensor_values
    | Some _ => predict_fusion self sensor_values camera_frame
    end
  else
    predict_sensor_only self sensor_values.

End arbiter.

End fusion_logic.

(** ** routes/api.py: the rest of [predict] *)

Module api_predict.
Import fusion_logic.

(** An error response: status code and message. *)
Inductive response :=
| Http (status : nat) (error : string).

Section handler.
Context {J F : Type} `{Num F}.

(** [float(x)] on a JSON value. *)
Variable py_float : J → result F.

(** [f"{x:.2f}"] *)
Variable format_2f : F → string.

(** Truth value of a float, and [str] and [!=] on metadata values that are
    not both strings. *)
Variable float_truthy : F → bool.
Variable other_str : meta F → string.
Variable other_ne : meta F → meta F → bool.

(** The loop [for i in range(1, 8)] from sensor [i] on, [n] rounds. *)
Fixpoint read_sensors (data : gmap string J) (i n : nat) (sensor_values : list F)
  : response + list F :=
  match n with
  | O => inr sensor_values
  | S n' =>
      let key := "sensor" +:+ pretty i in
      match data !! key with
      | None => inl (Http 400 ("Missing " +:+ key))
      | Some x =>
          match py_float x with
          | inl e => inl (Http 500 (str e))
          | inr v => read_sensors data (S i) n' (sensor_values ++ [v])
          end
      end
  end.

(** Sensor [i] is in the body and converts to [v]. *)
Definition reads (data : gmap string J) (i : nat) (v : F) : Prop :=
  ∃ x, data !! ("sensor" +:+ pretty i) = Some x ∧ py_float x = inr v.

(** "Parse request data" and "Extract sensor values" of [predict], for a
    body that is a JSON object. *)
Definition extract_sensor_values (data : gmap string J) : response + list F :=
  if bool_decide (data = ∅) then inl (Http 400 "No data provided")
  else read_sensors data 1 7 [].

(** Truth value of a metadata value. *)
Definition truthy (v : meta F) : bool :=
  match v with
  | MBool b => b
  | MStr s => negb (String.eqb s "")
  | MFloat x => float_truthy x
  | MDict d => negb (bool_decide (d = []))
  end.

(** [f"{v:.2f}"] on a metadata value: a bool formats as 1 or 0, a string or
    a dictionary raises. *)
Definition format_meta_2f (v : meta F) : result string :=
  match v with
  | MFloat x => ret (format_2f x)
  | MBool b => ret (format_2f (lit (if b then 1 else 0)))
  | MStr _ => raise (ValueError "Unknown format code 'f' for object of type 'str'")
  | MDict _ => raise (LibraryError "unsupported format string passed to dict.__format__")
  end.

Definition meta_str (v : meta F) : string :=
  match v with
  | MStr s => s
  | _ => other_str v
  end.

Definition meta_ne (v w : meta F) : bool :=
  match v, w with
  | MStr s, MStr t => negb (String.eqb s t)
  | _, _ => other_ne v w
  end.

(** "Determine fusion reason" of [predict]. *)
Definition fusion_reason (mode : string) (metadata : gmap string (meta F))
  : result (option string) :=
  let sensor_conf := metadata !! "sensor_confidence" in
  let camera_used := default (MBool false) (metadata !! "camera_used") in
  if String.eqb mode "auto" then
    if truthy camera_used then
      match sensor_conf with
      | Some c =>
          (let! s := format_meta_2f c in
           ret (Some ("Sensor low (" +:+ s +:+ "), camera activated")))%result
      | None => ret (Some "Camera activated")
      end
    else
      match sensor_conf with
      | Some c =>
          (let! s := format_meta_2f c in
           ret (Some ("Sensor confident (" +:+ s +:+ ")")))%result
      | None => ret (Some "Sensor only")
      end
  else if String.eqb mode "fusion" then
    let sensor_label := default (MStr "") (metadata !! "sensor_label") in
    let camera_label := default (MStr "") (metadata !! "camera_label") in
    if meta_ne sensor_label camera_label then
      ret (Some ("Conflict: S=" +:+ meta_str sensor_label +:+
                 ", C=" +:+ meta_str camera_label))
    else ret (Some "Both models agree")
  else ret None.

End handler.

End api_predict.

(** ** database/db_manager.py: daily statistics *)

Module db_manager.
Local Open Scope Z_scope.

(** A row of [posture_logs], with the columns the statistics read. *)
Record PostureLog := {
  posture : string;
  mode : string;
  warning_flag : bool
}.

Record DailyStatistics := {
  total_detections : Z;
  total_warnings : Z;
  correct_posture_count : Z;
  bad_posture_count : Z;
  posture_distribution : gmap string Z
}.

(** [sum(1 for l in logs if p(l))] *)
Definition count_if (p : PostureLog → bool) (logs : list PostureLog) : Z :=
  Z.of_nat (length (filter (λ l, p l = true) logs)).

(** [dict(Counter(keys))] *)
Definition Counter (keys : list string) : gmap string Z :=
  foldl (λ counts k, <[ k := default 0 (counts !! k) + 1 ]> counts) ∅ keys.

(** "Recalculate all statistics" of [_update_daily_statistics]: whether the
    row of the day [stats] existed or was just created, its fields are
    overwritten from [all_logs_today], the result of the query for the logs
    of the day. *)
Definition _update_daily_statistics (stats : option DailyStatistics)
    (all_logs_today : list PostureLog) : DailyStatistics :=
  {| total_detections := Z.of_nat (length all_logs_today);
     total_warnings := count_if warning_flag all_logs_today;
     correct_posture_count :=
       count_if (λ l, String.eqb (posture l) "Sitting_upright") all_logs_today;
     bad_posture_count :=
       count_if (λ l, negb (String.eqb (posture l) "Sitting_upright")) all_logs_today;
     posture_distribution := Counter (posture <$> all_logs_today) |}.

(** The numbers of the dictionary [get_posture_summary] returns for the
    row [stats] of the day, if there is one; the percentage is the exact
    quotient, before [round(_, 2)]. *)
Record Summary := {
  sum_total_detections : Z;
  sum_total_warnings : Z;
  sum_correct_posture_count : Z;
  sum_bad_posture_count : Z;
  correct_pct : Q;
  sum_posture_distribution : gmap string Z
}.

Definition get_posture_summary (stats : option DailyStatistics) : Summary :=
  match stats with
  | None =>
      {| sum_total_detections := 0; sum_total_warnings := 0;
         sum_correct_posture_count := 0; sum_bad_posture_count := 0;
         correct_pct := 0; sum_posture_distribution := ∅ |}
  | Some stats =>
      let total := if total_detections stats =? 0 then 1 else total_detections stats in
      {| sum_total_detections := total_detections stats;
         sum_total_warnings := total_warnings stats;
         sum_correct_posture_count := correct_posture_count stats;
         sum_bad_posture_count := bad_posture_count stats;
         correct_pct :=
           (inject_Z (correct_posture_count stats) / inject_Z total * 100)%Q;
         sum_posture_distribution := posture_distribution stats |}
  end.

(** The dictionary [get_statistics_by_date_range] returns for [logs], the
    result of its query; the percentage is the exact quotient, before
    [round(_, 1)]. *)
Record RangeStatistics := {
  range_total_detections : Z;
  range_correct_posture_count : Z;
  range_bad_posture_count : Z;
  range_total_warnings : Z;
  range_correct_percentage : Q;
  range_posture_distribution : gmap string Z;
  range_mode_distribution : gmap string Z
}.

Definition get_statistics_by_date_range (logs : list PostureLog) : RangeStatistics :=
  match logs with
  | [] =>
      {| range_total_detections := 0; range_correct_posture_count := 0;
         range_bad_posture_count := 0; range_total_warnings := 0;
         range_correct_percentage := 0;
         range_posture_distribution := ∅; range_mode_distribution := ∅ |}
  | _ =>
      let total := Z.of_nat (length logs) in
      let correct := count_if (λ l, String.eqb (posture l) "Sitting_upright") logs in
      let warnings := count_if warning_flag logs in
      {| range_total_detections := total;
         range_correct_posture_count := correct;
         range_bad_posture_count := total - correct;
         range_total_warnings := warnings;
         range_correct_percentage :=
           if 0 <? total then (inject_Z correct / inject_Z total * 100)%Q else 0;
         range_posture_distribution := Counter (posture <$> logs);
         range_mode_distribution := Counter (mode <$> logs) |}
  end.

End db_manager.

(** ** Concrete adapters, for examples *)

Module examples.

Definition sensor_values : list Q := [10; 20; 30; 40; 50; 60; 70]%Q.

(** A sensor model that is sure of "Leaning_forward". *)
Definition confident_sensor : sensor_model.SensorModel Q :=
  {| sensor_model.is_loaded := true;
     sensor_model.classify := λ _, inr ("Leaning_forward", 9 # 10);
     sensor_model.predict_proba := λ _, inr [1 # 10; 9 # 10];
     sensor_model.classes_ := ["Correct_posture"; "Leaning_forward"] |}.

(** A sensor model that hesitates. *)
Definition hesitant_sensor : sensor_model.SensorModel Q :=
  {| sensor_model.is_loaded := true;
     sensor_model.classify := λ _, inr ("Leaning_forward", 6 # 10);
     sensor_model.predict_proba := λ _, inr [4 # 10; 6 # 10];
     sensor_model.classes_ := ["Correct_posture"; "Leaning_forward"] |}.

(** A sensor model whose classifier answers but cannot give its
    distribution. *)
Definition undistributed_sensor : sensor_model.SensorModel Q :=
  {| sensor_model.is_loaded := true;
     sensor_model.classify := λ _, inr ("Leaning_forward", 6 # 10);
     sensor_model.predict_proba := λ _, inl (LibraryError "predict_proba is not available");
     sensor_model.classes_ := ["Correct_posture"; "Leaning_forward"] |}.

(** A camera adapter that sees "Leaning_left" in every frame but frame 0,
    where it finds nobody. *)
Definition camera : Model (option nat) Q :=
  {| model_predict := λ frame,
       match frame with
       | Some (S _) => inr ("Leaning_left", 8 # 10)
       | Some O => inl (ValueError "No person detected in frame")
       | None => inl (LibraryError "no source")
       end;
     model_get_all_probabilities := λ frame,
       match frame with
       | Some (S _) =>
           inr (camera_model.prob_dict ["Correct_posture"; "Leaning_left"]
                                       [2 # 10; 8 # 10])
       | Some O => inl (ValueError "No person detected in frame")
       | None => inl (LibraryError "no source")
       end |}.

Definition arbiter (m : string) (s : sensor_model.SensorModel Q)
  : fusion_logic.FusionLogic nat Q :=
  {| fusion_logic.sensor_model := get_sensor_model s;
     fusion_logic.camera_model := camera;
     fusion_logic.mode := m;
     fusion_logic.auto_threshold := 7 # 10;
     fusion_logic.fusion_weights := <[ "camera" := 6 # 10 ]> (<[ "sensor" := 4 # 10 ]> ∅) |}.

(** A camera model over the reals whose YOLO stage finds nobody. *)
Definition empty_room : camera_model.CameraModel nat R :=
  {| camera_model.is_loaded := true;
     camera_model.yolo_model := λ _, inr [];
     camera_model.rf_classify := λ _, inr ("Correct_posture", 1%R);
     camera_model.rf_predict_proba := λ _, inr [1%R];
     camera_model.classes_ := ["Correct_posture"] |}.

Definition real_sensor : sensor_model.SensorModel R :=
  {| sensor_model.is_loaded := true;
     sensor_model.classify := λ _, inr ("Correct_posture", 1%R);
     sensor_model.predict_proba := λ _, inr [1%R];
     sensor_model.classes_ := ["Correct_posture"] |}.

Definition camera_only_arbiter : fusion_logic.FusionLogic nat R :=
  {| fusion_logic.sensor_model := get_sensor_model real_sensor;
     fusion_logic.camera_model := get_camera_model empty_room;
     fusion_logic.mode := "camera_only";
     fusion_logic.auto_threshold := Q2R (7 # 10);
     fusion_logic.fusion_weights := ∅ |}.

(** A request body with seven sensor readings and a stray key, and one
    that lacks the third sensor. *)
Definition body : gmap string Q :=
  list_to_map [("sensor1", 10); ("sensor2", 20); ("sensor3", 30); ("sensor4", 40);
               ("sensor5", 50); ("sensor6", 60); ("sensor7", 70); ("battery", 3)]%Q.

Definition short_body : gmap string Q :=
  list_to_map [("sensor1", 10); ("sensor2", 20); ("sensor4", 40)]%Q.

(** A capture device that opens and takes its settings, and the manager
    [__init__] builds on it. *)
Definition good_device : camera_manager.Device :=
  {| camera_manager.dev_open := camera_manager.vc_returns true;
     camera_manager.dev_props := None |}.

Definition started : camera_manager.CameraManager nat :=
  {| camera_manager.camera_index := 0;
     camera_manager.width := 1280;
     camera_manager.height := 720;
     camera_manager.cap := Some true;
     camera_manager.is_opened := true;
     camera_manager.current_frame := None;
     camera_manager.inference_mode := false;
     camera_manager.capture_thread := true;
     camera_manager.running := true |}.

End examples.
(** * Properties

    ** The warning tracker *)

Module api_facts.
Import api.
Local Open Scope Z_scope.

Lemma feed_cons wt l rest :
  feed wt (l :: rest) =
  ((feed (warning_step wt l).1 rest).1,
   (warning_step wt l).2 :: (feed (warning_step wt l).1 rest).2).
Proof.
  cbn [feed]. destruct (warning_step wt l) as [wt1 w]; cbn.
  by destruct (feed wt1 rest).
Qed.

Lemma feed_app wt ls1 ls2 :
  feed wt (ls1 ++ ls2) =
  ((feed (feed wt ls1).1 ls2).1, (feed wt ls1).2 ++ (feed (feed wt ls1).1 ls2).2).
Proof.
  revert wt. induction ls1 as [|l ls1 IH]; intros wt.
  - cbn. by destruct (feed wt ls2).
  - rewrite <- app_comm_cons, !feed_cons, IH. reflexivity.
Qed.

Lemma tracker_after_snoc labels l :
  tracker_after (labels ++ [l]) = (warning_step (tracker_after labels) l).1.
Proof.
  unfold tracker_after. rewrite feed_app. cbn [fst].
  rewrite feed_cons. reflexivity.
Qed.

(** The flag, case by case. *)
Lemma warning_flag_good wt l :
  is_bad_posture l = false → warning_flag wt l = (wt, false).
Proof. unfold warning_flag. by intros ->. Qed.

Lemma warning_flag_warned wt l :
  is_bad_posture l = true → l ∈ warned_postures wt → warning_flag wt l = (wt, true).
Proof.
  unfold warning_flag. intros -> Hin. by rewrite bool_decide_eq_true_2.
Qed.

Lemma warning_flag_below wt l :
  is_bad_posture l = true → l ∉ warned_postures wt →
  consecutive_count wt < warning_threshold wt →
  warning_flag wt l = (wt, false).
Proof.
  unfold warning_flag. intros -> Hnin Hlt. rewrite bool_decide_eq_false_2 by done.
  destruct (Z.geb_spec (consecutive_count wt) (warning_threshold wt)); [lia | done].
Qed.

Lemma warning_flag_cross wt l :
  is_bad_posture l = true → l ∉ warned_postures wt →
  warning_threshold wt ≤ consecutive_count wt →
  warning_flag wt l =
  ({| last_posture := last_posture wt;
      consecutive_count := consecutive_count wt;
      warning_threshold := warning_threshold wt;
      warned_postures := warned_postures wt ∪ {[ l ]} |}, true).
Proof.
  unfold warning_flag. intros -> Hnin Hle. rewrite bool_decide_eq_false_2 by done.
  destruct (Z.geb_spec (consecutive_count wt) (warning_threshold wt)); [done | lia].
Qed.

(** The tracker update, case by case. *)
Lemma update_tracker_change wt l :
  last_posture wt ≠ Some l →
  update_tracker wt l =
  {| last_posture := Some l;
     consecutive_count := if is_bad_posture l then 1 else 0;
     warning_threshold := warning_threshold wt;
     warned_postures :=
       if truthy (last_posture wt) && in_warned (last_posture wt) (warned_postures wt)
       then discard_last (last_posture wt) (warned_postures wt)
       else warned_postures wt |}.
Proof. intros Hne. unfold update_tracker. by rewrite bool_decide_eq_true_2. Qed.

Lemma update_tracker_same wt l :
  last_posture wt = Some l →
  update_tracker wt l =
  {| last_posture := Some l;
     consecutive_count := if is_bad_posture l then consecutive_count wt + 1 else 0;
     warning_threshold := warning_threshold wt;
     warned_postures := warned_postures wt |}.
Proof.
  intros Heq. unfold update_tracker.
  rewrite bool_decide_eq_false_2 by (intros Hne; by apply Hne).
  rewrite Heq. by destruct (is_bad_posture l).
Qed.

(** Leaving a posture empties the warned set, when that set held nothing
    but the posture left. *)
Lemma warned_after_change o (W : gset string) :
  (∀ x, x ∈ W → o = Some x ∧ is_bad_posture x = true) →
  (if truthy o && in_warned o W then discard_last o W else W) = ∅.
Proof.
  intros HW. apply set_eq. intros x. rewrite elem_of_empty.
  split; [|done]. intros Hx.
  assert (Hin : x ∈ W).
  { destruct (truthy o && in_warned o W); [|done].
    destruct o as [lp|]; cbn in Hx; [|done].
    by apply elem_of_difference in Hx as [? _]. }
  destruct (HW _ Hin) as [Ho Hbad]. subst o. cbn in Hx.
  rewrite (bool_decide_eq_true_2 _ Hin), andb_true_r in Hx.
  destruct (String.eqb_spec x "") as [Hempty|_]; cbn in Hx.
  - rewrite Hempty in Hbad. vm_compute in Hbad. discriminate.
  - apply elem_of_difference in Hx as [_ Hne]. by apply Hne, elem_of_singleton.
Qed.

Lemma leading_run_nonneg l ls : 0 ≤ leading_run l ls.
Proof. induction ls as [|x ls IH]; cbn; [lia|]. case_bool_decide; lia. Qed.

Lemma current_streak_snoc_same l labels :
  current_streak l (labels ++ [l]) = 1 + current_streak l labels.
Proof.
  unfold current_streak. rewrite reverse_snoc. cbn.
  by rewrite bool_decide_eq_true_2.
Qed.

Lemma current_streak_fresh l labels :
  head (reverse labels) ≠ Some l → current_streak l labels = 0.
Proof.
  unfold current_streak. destruct (reverse labels) as [|x r]; cbn; [done|].
  intros Hne. rewrite bool_decide_eq_false_2; [done|]. intros ->. by apply Hne.
Qed.

Lemma tracker_inv_init : tracker_inv [] warning_tracker.
Proof. repeat split; cbn; set_solver. Qed.

Lemma last_posture_step wt l : last_posture (warning_step wt l).1 = Some l.
Proof.
  unfold warning_step, warning_flag, update_tracker.
  repeat (case_bool_decide || case_match); cbn; try done;
    match goal with H : ¬ (_ ≠ _) |- _ => by apply dec_stable in H end.
Qed.

Lemma tracker_inv_step labels wt l :
  tracker_inv labels wt → tracker_inv (labels ++ [l]) (warning_step wt l).1.
Proof.
  intros (HT & HW & Hlast). unfold warning_step.
  pose proof (leading_run_nonneg l (reverse labels)) as Hnn.
  fold (current_streak l labels) in Hnn.
  destruct (decide (last_posture wt = Some l)) as [Hsame|Hchange].
  - rewrite (update_tracker_same _ _ Hsame). rewrite Hsame in Hlast.
    destruct Hlast as [Hhd Hcount].
    destruct (is_bad_posture l) eqn:Hbad.
    + destruct (decide (l ∈ warned_postures wt)) as [Hin|Hnin].
      * rewrite warning_flag_warned by done. destruct (HW _ Hin) as (_ & _ & Hle).
        unfold tracker_inv; cbn. rewrite reverse_snoc, Hbad, current_streak_snoc_same.
        refine (conj HT (conj _ (conj eq_refl _))); [|lia].
        intros x Hx. destruct (HW _ Hx) as (Hx1 & Hx2 & Hx3).
        split; [congruence|]. split; [done|lia].
      * destruct (Z_lt_le_dec (consecutive_count wt + 1) (warning_threshold wt)) as [Hlt|Hle].
        -- rewrite warning_flag_below by done.
           unfold tracker_inv; cbn. rewrite reverse_snoc, Hbad, current_streak_snoc_same.
           refine (conj HT (conj _ (conj eq_refl _))); [|lia].
           intros x Hx. destruct (HW _ Hx) as (Hx1 & _ & _).
           assert (x = l) by congruence. by subst.
        -- rewrite warning_flag_cross by done.
           unfold tracker_inv; cbn. rewrite reverse_snoc, Hbad, current_streak_snoc_same.
           refine (conj HT (conj _ (conj eq_refl _))); [|lia].
           intros x [Hx|Hx]%elem_of_union.
           ++ destruct (HW _ Hx) as (Hx1 & _ & _).
              assert (x = l) by congruence. by subst.
           ++ apply elem_of_singleton in Hx. by subst.
    + rewrite warning_flag_good by done.
      unfold tracker_inv; cbn. rewrite reverse_snoc, Hbad.
      refine (conj HT (conj _ (conj eq_refl eq_refl))).
      intros x Hx. destruct (HW _ Hx) as (Hx1 & Hx2 & _).
      assert (x = l) by congruence. subst. congruence.
  - rewrite (update_tracker_change _ _ Hchange).
    rewrite warned_after_change by (intros x Hx; by destruct (HW _ Hx) as (? & ? & _)).
    assert (Hstreak : current_streak l (labels ++ [l]) = 1).
    { rewrite current_streak_snoc_same, current_streak_fresh; [done|].
      destruct (last_posture wt) as [lp|]; [|destruct Hlast as [-> _]; done].
      destruct Hlast as [-> _]. congruence. }
    destruct (is_bad_posture l) eqn:Hbad.
    + destruct (Z_lt_le_dec 1 (warning_threshold wt)) as [Hlt|Hle].
      * rewrite warning_flag_below by (cbn; set_solver || done).
        unfold tracker_inv; cbn. rewrite reverse_snoc, Hbad, Hstreak.
        refine (conj HT (conj _ (conj eq_refl eq_refl))). set_solver.
      * rewrite warning_flag_cross by (cbn; set_solver || done).
        unfold tracker_inv; cbn. rewrite reverse_snoc, Hbad, Hstreak.
        refine (conj HT (conj _ (conj eq_refl eq_refl))).
        intros x [Hx|Hx]%elem_of_union; [set_solver|].
        apply elem_of_singleton in Hx. by subst.
    + rewrite warning_flag_good by done.
      unfold tracker_inv; cbn. rewrite reverse_snoc, Hbad.
      refine (conj HT (conj _ (conj eq_refl eq_refl))). set_solver.
Qed.

Lemma tracker_inv_after labels : tracker_inv labels (tracker_after labels).
Proof.
  induction labels as [|l labels IH] using rev_ind.
  - apply tracker_inv_init.
  - rewrite tracker_after_snoc. by apply tracker_inv_step.
Qed.


(** One step from an explicit tracker, for a label that differs from the
    last one and finds the warned set without it. *)
Lemma step_change o c T (W : gset string) l :
  o ≠ Some l →
  warning_step {| last_posture := o; consecutive_count := c;
                  warning_threshold := T; warned_postures := W |} l =
  warning_flag
    {| last_posture := Some l;
       consecutive_count := if is_bad_posture l then 1 else 0;
       warning_threshold := T;
       warned_postures := if truthy o && in_warned o W then discard_last o W else W |} l.
Proof. intros Hne. unfold warning_step. by rewrite update_tracker_change. Qed.

Lemma step_same c T (W : gset string) l :
  warning_step {| last_posture := Some l; consecutive_count := c;
                  warning_threshold := T; warned_postures := W |} l =
  warning_flag
    {| last_posture := Some l;
       consecutive_count := if is_bad_posture l then c + 1 else 0;
       warning_threshold := T;
       warned_postures := W |} l.
Proof. unfold warning_step. by rewrite update_tracker_same. Qed.

Ltac flag_step HB :=
  first
    [ rewrite (warning_flag_warned _ _ HB) by (cbn; set_solver)
    | rewrite (warning_flag_below _ _ HB) by (cbn; first [lia | set_solver])
    | rewrite (warning_flag_cross _ _ HB) by (cbn; first [lia | set_solver]) ].

Lemma consecutive_count_flag wt l :
  consecutive_count (warning_flag wt l).1 = consecutive_count wt.
Proof.
  unfold warning_flag.
  destruct (is_bad_posture l); [|done].
  case_bool_decide; [done|].
  by destruct (consecutive_count wt >=? warning_threshold wt).
Qed.

(** C1: with the threshold 5 of [warning_tracker], five identical bad
    labels warn on the fifth call only, a sixth one warns again, and after
    one good label the same bad label does not warn. *)
Theorem warning_hysteresis (B G : string) :
  is_bad_posture B = true → is_bad_posture G = false →
  warning_threshold warning_tracker = 5 ∧
  warnings_of [B; B; B; B; B] = [false; false; false; false; true] ∧
  warnings_of [B; B; B; B; B; B] = [false; false; false; false; true; true] ∧
  warnings_of [B; B; B; B; B; G; B] = [false; false; false; false; true; false; false].
Proof.
  intros HB HG. split; [reflexivity|].
  assert (Hfive : feed warning_tracker [B; B; B; B; B] =
                  ({| last_posture := Some B; consecutive_count := 5;
                      warning_threshold := 5; warned_postures := {[ B ]} |},
                   [false; false; false; false; true])).
  { unfold warning_tracker.
    rewrite feed_cons, step_change by done. cbn [truthy in_warned andb]. rewrite HB.
    flag_step HB. cbn [fst snd].
    do 3 (rewrite feed_cons, step_same, HB; flag_step HB; cbn [fst snd Z.add Pos.add Pos.succ]).
    rewrite feed_cons, step_same, HB. flag_step HB.
    cbn [fst snd Z.add Pos.add Pos.succ consecutive_count last_posture
         warning_threshold warned_postures].
    rewrite (left_id_L ∅ (∪)). reflexivity. }
  unfold warnings_of. split; [by rewrite Hfive|]. split.
  - change [B; B; B; B; B; B] with ([B; B; B; B; B] ++ [B]).
    rewrite feed_app, Hfive. cbn [fst snd].
    rewrite feed_cons, step_same, HB. flag_step HB. reflexivity.
  - assert (HBG : B ≠ G) by (intros ->; congruence).
    change [B; B; B; B; B; G; B] with ([B; B; B; B; B] ++ [G; B]).
    rewrite feed_app, Hfive. cbn [fst snd].
    rewrite feed_cons, step_change by congruence. rewrite HG.
    rewrite warned_after_change
      by (intros x ->%elem_of_singleton; by split).
    rewrite warning_flag_good by done. cbn [fst snd].
    rewrite feed_cons, step_change by congruence. rewrite HB.
    rewrite warned_after_change by (intros x Hx; by apply not_elem_of_empty in Hx).
    rewrite (warning_flag_below _ _ HB); [reflexivity| |cbn; lia].
    cbn. apply not_elem_of_empty.
Qed.

Lemma warning_hysteresis_witness :
  warning_threshold warning_tracker = 5 ∧
  warnings_of (replicate 5 "Leaning_forward") = [false; false; false; false; true] ∧
  warnings_of (replicate 6 "Leaning_forward") =
    [false; false; false; false; true; true] ∧
  warnings_of (replicate 5 "Leaning_forward" ++ ["Correct_posture"; "Leaning_forward"]) =
    [false; false; false; false; true; false; false].
Proof.
  apply (warning_hysteresis "Leaning_forward" "Correct_posture"); reflexivity.
Defined.

(** C2: after every label stream, one more step (a) sets the count to 1 or
    0 when the label differs from the last one, (b) otherwise carries the
    count on (one more for a bad label, still 0 for a good one, so a bad
    run is at 2 or more), and (c) leaves the new last label in the warned
    set only if the run of that label that ends the stream is at least as
    long as the threshold. *)
Theorem tracker_invariant (labels : list string) (L : string) :
  let wt := tracker_after labels in
  let wt' := tracker_after (labels ++ [L]) in
  (last_posture wt ≠ Some L →
     consecutive_count wt' = if is_bad_posture L then 1 else 0) ∧
  (last_posture wt = Some L →
     consecutive_count wt' =
       consecutive_count wt + (if is_bad_posture L then 1 else 0) ∧
     (is_bad_posture L = true → 2 ≤ consecutive_count wt')) ∧
  last_posture wt' = Some L ∧
  (∀ x, x ∈ warned_postures wt' → last_posture wt' = Some x →
        warning_threshold wt' = 5 ∧
        consecutive_count wt' = current_streak x (labels ++ [L]) ∧
        5 ≤ current_streak x (labels ++ [L])).
Proof.
  intros wt wt'.
  pose proof (tracker_inv_after labels) as (HT & HW & Hlast). fold wt in HT, HW, Hlast.
  pose proof (tracker_inv_after (labels ++ [L])) as (HT' & HW' & Hlast').
  fold wt' in HT', HW', Hlast'.
  assert (Hl' : last_posture wt' = Some L).
  { unfold wt'. rewrite tracker_after_snoc. apply last_posture_step. }
  assert (Hc : consecutive_count wt' = consecutive_count (update_tracker wt L)).
  { unfold wt'. rewrite tracker_after_snoc. apply consecutive_count_flag. }
  split; [|split; [|split]].
  - intros Hne. rewrite Hc, update_tracker_change by done. reflexivity.
  - intros Heq. rewrite Hc, update_tracker_same by done. cbn.
    rewrite Heq in Hlast. destruct Hlast as [Hhd Hcount].
    destruct (is_bad_posture L) eqn:Hbad.
    + split; [done|]. intros _. rewrite Hcount. unfold current_streak.
      destruct (reverse labels) as [|x r]; [done|]. cbn in Hhd. injection Hhd as ->.
      cbn. rewrite bool_decide_eq_true_2 by done.
      pose proof (leading_run_nonneg L r). lia.
    + split; [lia|done].
  - exact Hl'.
  - intros x Hx Hlx. destruct (HW' _ Hx) as (_ & Hbad & Hle).
    rewrite Hlx in Hlast'. destruct Hlast' as [_ Hcount]. rewrite Hbad in Hcount.
    rewrite HT' in *. cbn in Hle |- *. repeat split; [done|lia].
Qed.

Lemma tracker_invariant_witness :
  let labels := replicate 5 "Leaning_left" in
  let wt' := tracker_after (labels ++ ["Leaning_left"]) in
  consecutive_count wt' = 6 ∧ "Leaning_left" ∈ warned_postures wt' ∧
  5 ≤ current_streak "Leaning_left" (labels ++ ["Leaning_left"]).
Proof.
  intros labels wt'.
  destruct (tracker_invariant labels "Leaning_left") as (_ & Hsame & Hlast & Hwarned).
  destruct (Hsame eq_refl) as [Hcount _].
  assert (Hin : "Leaning_left" ∈ warned_postures wt') by (by vm_compute).
  destruct (Hwarned _ Hin Hlast) as (_ & _ & Hle).
  split; [exact Hcount|]. split; [exact Hin|exact Hle].
Defined.

(** C6, evaluated on the code: the configuration value
    [config.WARNING_THRESHOLD] is 3, yet three bad labels in a row do not
    warn; the tracker compares with its own constant 5 after every stream. *)
Theorem warning_threshold_not_configured :
  config.WARNING_THRESHOLD = 3 ∧
  warnings_of (replicate 3 "Leaning_forward") = [false; false; false] ∧
  ∀ labels, warning_threshold (tracker_after labels) = 5.
Proof.
  split; [reflexivity|]. split; [by vm_compute|].
  intros labels. by destruct (tracker_inv_after labels) as (-> & _).
Qed.

End api_facts.

(** ** The frame source *)

Module camera_manager_facts.
Import camera_manager.

Section degraded.
Context {Frame : Type}.
Implicit Types (self : CameraManager Frame) (a : action Frame).

Lemma _init_camera_degraded dev self :
  open_fails dev → current_frame self = None → capture_thread self = false →
  degraded (_init_camera dev self).
Proof.
  unfold open_fails, _init_camera, _init_camera_try. intros Hfail Hframe Hthread.
  destruct (dev_open dev) as [e|opened]; [done|].
  subst opened. done.
Qed.

Lemma step_degraded self a self' r :
  degraded self → step self a = Some (self', r) → degraded self'.
Proof.
  intros (Hopen & Hframe & Hthread) Hstep.
  destruct a; cbn in Hstep; try rewrite Hthread in Hstep; cbn in Hstep;
    inversion Hstep; subst; done.
Qed.

Lemma run_degraded self acts self' :
  degraded self → run self acts = Some self' → degraded self'.
Proof.
  revert self. induction acts as [|a acts IH]; intros self Hdeg Hrun; cbn in Hrun.
  - by inversion Hrun; subst.
  - destruct (step self a) as [[self1 r]|] eqn:Hstep; [|done].
    eapply IH; [|exact Hrun]. by eapply step_degraded.
Qed.

(** Without a capture thread only callers act, and they always can. *)
Lemma step_degraded_enabled self a :
  degraded self → is_Some (step self a) ↔ is_call a = true.
Proof.
  intros (_ & _ & Hthread).
  destruct a; cbn; rewrite ?Hthread; cbn; split; intros H; try done;
    try (by eexists); by destruct H.
Qed.

Lemma run_calls self acts :
  degraded self → forallb is_call acts = true → is_Some (run self acts).
Proof.
  revert self. induction acts as [|a acts IH]; intros self Hdeg Hcalls; cbn.
  - by eexists.
  - cbn in Hcalls. apply andb_prop in Hcalls as [Ha Hrest].
    destruct (proj2 (step_degraded_enabled self a Hdeg) Ha) as [[self1 r] Hstep].
    rewrite Hstep. apply IH; [|done]. by eapply step_degraded.
Qed.

Lemma degraded_unavailable self :
  degraded self →
  is_available self = false ∧ st_is_available (get_status self) = false ∧
  st_has_frame (get_status self) = false.
Proof.
  intros (Hopen & Hframe & _). unfold get_status, is_available; cbn.
  rewrite Hopen, Hframe. done.
Qed.

Lemma degraded_capture self :
  degraded self → (capture_for_inference self).2 = inr None.
Proof. intros (_ & Hframe & _). unfold capture_for_inference; cbn. by rewrite Hframe. Qed.

(** C7: when opening the capture device fails, construction returns a
    manager; whatever happens to it afterwards, its status reports
    [is_available = false] and [capture_for_inference] returns [None];
    every sequence of method calls can be run on it. *)
Theorem open_failure_is_not_fatal (dev : Device) (index w h : option Z) :
  open_fails dev →
  ∃ self,
    __init__ dev index w h = inr self ∧
    st_is_opened (get_status self) = false ∧
    st_is_available (get_status self) = false ∧
    (∀ acts, forallb is_call acts = true → is_Some (run self acts)) ∧
    (∀ acts self', run self acts = Some self' →
       forallb is_call acts = true ∧
       st_is_available (get_status self') = false ∧
       (capture_for_inference self').2 = inr None).
Proof.
  intros Hfail. eexists. split; [reflexivity|].
  match goal with |- context [get_status ?s] => set (self := s) end.
  assert (Hdeg : degraded self) by (by apply _init_camera_degraded).
  split; [by destruct Hdeg|]. split; [by apply degraded_unavailable|]. split.
  - intros acts Hcalls. by apply run_calls.
  - intros acts self' Hrun. split.
    + clear Hfail. revert Hrun. generalize self Hdeg. clear self Hdeg.
      induction acts as [|a acts IH]; intros self Hdeg Hrun; [done|].
      cbn in Hrun |- *.
      destruct (step self a) as [[self1 r]|] eqn:Hstep; [|done].
      rewrite (proj1 (step_degraded_enabled self a Hdeg)) by (by eexists).
      cbn. eapply IH; [|exact Hrun]. by eapply step_degraded.
    + pose proof (run_degraded _ _ _ Hdeg Hrun) as Hdeg'.
      split; [by apply degraded_unavailable|by apply degraded_capture].
Qed.

End degraded.

Lemma open_failure_is_not_fatal_witness :
  ∃ self : CameraManager nat,
    __init__ {| dev_open := vc_returns false; dev_props := None |} None None None
      = inr self ∧
    st_is_available (get_status self) = false.
Proof.
  destruct (open_failure_is_not_fatal (Frame := nat)
              {| dev_open := vc_returns false; dev_props := None |} None None None)
    as (self & Hinit & _ & Hstatus & _); [reflexivity|].
  exists self. split; [exact Hinit|exact Hstatus].
Defined.

End camera_manager_facts.

(** ** The camera adapter's feature vector *)

Module camera_model_facts.
Import camera_model.

Ltac seventeen kps H :=
  do 17 (destruct kps as [|[? ?] kps]; [discriminate H|]);
  destruct kps; [clear H|discriminate H].

Section layout.
Context {F : Type} `{Num F} `{Elementary F}.
Implicit Types kps : list (F * F).

Lemma length_coordinates_of kps idxs :
  (length (coordinates_of kps idxs) ≤ 2 * length idxs)%nat.
Proof.
  induction idxs as [|i idxs IH]; cbn; [lia|].
  rewrite length_app. unfold coordinates_of in IH.
  destruct (kps !! i); cbn; lia.
Qed.

Lemma raw_keypoints_total kps :
  length kps = 17%nat →
  raw_keypoints kps RELEVANT_KEYPOINTS = inr (coordinates_of kps RELEVANT_KEYPOINTS).
Proof. intros Hlen. seventeen kps Hlen. reflexivity. Qed.

Lemma _extract_derived_features_total kps :
  length kps = 17%nat →
  ∃ derived, _extract_derived_features kps = inr derived ∧
             map fst derived = derived_names.
Proof. intros Hlen. seventeen kps Hlen. eexists. split; reflexivity. Qed.

(** The vector is the value of the symbolic vector at the coordinates. *)
Lemma _extract_features_eval kps :
  length kps = 17%nat →
  _extract_features kps = inr (map (eval (valuation kps)) symbolic_features).
Proof. intros Hlen. seventeen kps Hlen. reflexivity. Qed.

End layout.

(** *** Guarded divisions do not divide by zero, over the reals *)

Section reals.
Local Open Scope R_scope.
Variable ρ : nat → bool → R.

Lemma epsilon_pos : 0 < Q2R epsilon.
Proof. unfold epsilon, Q2R; cbn. lra. Qed.

Lemma nonneg_sound e : nonneg e = true → 0 <= eval ρ e.
Proof.
  induction e as [k ax|q|a IHa b IHb|a IHa b IHb|a IHa b IHb|a IHa b IHb
                  |a IHa|a IHa|a IHa|a IHa|a IHa lo IHlo hi IHhi|a IHa];
    cbn [nonneg eval]; try discriminate.
  - intros Hq%Qle_bool_iff%Qle_Rle.
    change (lit q) with (Q2R q). by rewrite RMicromega.Q2R_0 in Hq.
  - intros [Ha Hb]%andb_prop. specialize (IHa Ha). specialize (IHb Hb).
    change (0 <= eval ρ a + eval ρ b). lra.
  - intros [Ha Hb]%andb_prop.
    change (0 <= eval ρ a * eval ρ b). apply Rmult_le_pos; auto.
  - intros [Ha Hb]%andb_prop. specialize (IHa Ha). specialize (IHb Hb).
    change (0 <= eval ρ a / eval ρ b).
    destruct IHb as [Hpos|Hzero].
    + apply Rmult_le_pos; [done|]. left. by apply Rinv_0_lt_compat.
    + rewrite <- Hzero. unfold Rdiv. rewrite Rinv_0. lra.
  - intros _. apply sqrt_pos.
  - intros _. apply Rle_0_sqr.
  - intros _. apply Rabs_pos.
Qed.

Lemma guarded_denominator_pos d : guarded_denominator d = true → 0 < eval ρ d.
Proof.
  destruct d as [| q | x y | | | | | | | | |]; try discriminate.
  - cbn. intros Hq%negb_true_iff.
    destruct (Qlt_le_dec 0 q) as [Hlt%Qlt_Rlt|Hle%Qle_bool_iff]; [|congruence].
    change (lit q) with (Q2R q). by rewrite RMicromega.Q2R_0 in Hlt.
  - destruct y as [| q | | | | | | | | | |]; try discriminate.
    cbn. intros [Hx Heps%Qeq_bool_eq%Qeq_eqR]%andb_prop.
    pose proof (nonneg_sound x Hx). pose proof epsilon_pos.
    change (0 < eval ρ x + Q2R q). lra.
Qed.

Lemma guarded_sound e :
  guarded e = true → Forall (λ d, 0 < eval ρ d) (denominators e).
Proof.
  induction e as [k ax|q|a IHa b IHb|a IHa b IHb|a IHa b IHb|a IHa b IHb
                  |a IHa|a IHa|a IHa|a IHa|a IHa lo IHlo hi IHhi|a IHa];
    cbn [guarded denominators]; intros Hg; auto.
  - apply andb_prop in Hg as [Hga Hgb]. apply Forall_app; auto.
  - apply andb_prop in Hg as [Hga Hgb]. apply Forall_app; auto.
  - apply andb_prop in Hg as [Hga Hgb]. apply Forall_app; auto.
  - apply andb_prop in Hg as [[Hga Hgb]%andb_prop Hden].
    constructor; [by apply guarded_denominator_pos|]. apply Forall_app; auto.
  - apply andb_prop in Hg as [[Hga Hglo]%andb_prop Hghi].
    apply Forall_app; split; [auto|]. apply Forall_app; auto.
Qed.

End reals.

Lemma symbolic_features_guarded : forallb guarded symbolic_features = true.
Proof. by vm_compute. Qed.

Lemma symbolic_denominators_pos (ρ : nat → bool → R) :
  Forall (λ d, (0 < eval ρ d)%R) (flat_map denominators symbolic_features).
Proof.
  apply Forall_flat_map, Forall_forall. intros e He.
  apply guarded_sound.
  pose proof symbolic_features_guarded as Hall.
  rewrite forallb_forall in Hall. apply Hall. by apply list_elem_of_In.
Qed.

Lemma symbolic_denominators_add_epsilon :
  Forall adds_epsilon (flat_map denominators symbolic_features).
Proof.
  unfold adds_epsilon.
  let l := eval vm_compute in (flat_map denominators symbolic_features) in
  change (flat_map denominators symbolic_features) with l.
  repeat (apply List.Forall_cons;
          [first [left; reflexivity
                 | right; eexists; split; [|reflexivity]; reflexivity]|]).
  apply List.Forall_nil.
Qed.

(** C9, as the code has it: the vector is the two coordinates of each of
    the 13 keypoints of [RELEVANT_KEYPOINTS], in that order, followed by the
    18 derived features in the order of [derived_names]; every denominator
    in it is the literal 2 of a midpoint or a non-negative quantity plus
    [1e-6], and over the reals every denominator is positive whatever the
    keypoints. *)
Theorem feature_vector_layout :
  length RELEVANT_KEYPOINTS = 13%nat ∧
  length derived_names = 18%nat ∧
  (∀ (F : Type) (HN : Num F) (HE : Elementary F) (kps : list (F * F)),
     length kps = 17%nat →
     ∃ derived,
       _extract_derived_features kps = inr derived ∧
       map fst derived = derived_names ∧
       _extract_features kps =
         inr (coordinates_of kps RELEVANT_KEYPOINTS ++ map snd derived) ∧
       length (coordinates_of kps RELEVANT_KEYPOINTS) = 26%nat ∧
       coordinates_of kps RELEVANT_KEYPOINTS ++ map snd derived =
         map (eval (valuation kps)) symbolic_features) ∧
  Forall adds_epsilon (flat_map denominators symbolic_features) ∧
  (∀ kps : list (R * R),
     Forall (λ d, (0 < eval (valuation kps) d)%R)
            (flat_map denominators symbolic_features)).
Proof.
  split; [reflexivity|]. split; [reflexivity|]. split; [|split].
  - intros F HN HE kps Hlen.
    destruct (_extract_derived_features_total kps Hlen) as (derived & Hder & Hnames).
    exists derived. split; [exact Hder|]. split; [exact Hnames|].
    assert (Hvec : _extract_features kps =
                   inr (coordinates_of kps RELEVANT_KEYPOINTS ++ map snd derived)).
    { unfold _extract_features. rewrite (raw_keypoints_total kps Hlen), Hder.
      reflexivity. }
    split; [exact Hvec|]. split.
    + clear Hvec Hder. seventeen kps Hlen. reflexivity.
    + rewrite (_extract_features_eval kps Hlen) in Hvec. by injection Hvec.
  - exact symbolic_denominators_add_epsilon.
  - intros kps. apply symbolic_denominators_pos.
Qed.

Lemma feature_vector_layout_witness :
  ∃ derived,
    _extract_derived_features symbolic_keypoints = inr derived ∧
    _extract_features symbolic_keypoints =
      inr (coordinates_of symbolic_keypoints RELEVANT_KEYPOINTS ++ map snd derived).
Proof.
  destruct feature_vector_layout as (_ & _ & Hlayout & _).
  destruct (Hlayout expr _ _ symbolic_keypoints eq_refl)
    as (derived & Hder & _ & Hvec & _).
  exists derived. split; [exact Hder|exact Hvec].
Defined.

(** C9, as stated, fails: no choice of 12 keypoints gives the raw part of
    the vector. *)
Lemma twelve_point_layout_fails :
  ¬ ∃ subset : list nat,
      length subset = 12%nat ∧
      ∃ derived,
        _extract_derived_features symbolic_keypoints = inr derived ∧
        _extract_features symbolic_keypoints =
          inr (coordinates_of symbolic_keypoints subset ++ map snd derived).
Proof.
  intros (subset & Hlen & derived & Hder & Hvec).
  pose proof (length_coordinates_of symbolic_keypoints subset) as Hraw.
  rewrite Hlen in Hraw.
  assert (Hd : length derived = 18%nat).
  { assert (Hall : ∀ r, _extract_derived_features symbolic_keypoints = inr r →
                        length r = 18%nat).
    { intros r Hr. vm_compute in Hr. injection Hr as <-. reflexivity. }
    by apply Hall. }
  assert (Hv : ∀ r, _extract_features symbolic_keypoints = inr r → length r = 44%nat).
  { intros r Hr. vm_compute in Hr. injection Hr as <-. reflexivity. }
  apply Hv in Hvec. rewrite length_app, length_map, Hd in Hvec. lia.
Qed.

End camera_model_facts.

(** ** The arbiter *)

#[export] Instance Q_CmpLaws : CmpLaws Q.
Proof.
  split.
  - intros x. cbn. apply negb_false_iff, Qle_bool_iff, Qle_refl.
  - intros x y z. cbn. rewrite !negb_true_iff.
    intros Hxy Hyz. apply not_true_iff_false. apply not_true_iff_false in Hxy, Hyz.
    rewrite Qle_bool_iff in *. intros Hxz. apply Hyz.
    apply Qlt_le_weak, Qlt_le_trans with x; [|done]. by apply Qnot_le_lt.
Qed.

(** *** The adapters behind the arbiter *)

Section adapters.
Context {Frame F : Type} `{Num F} `{Elementary F}.

(** The sensor adapter returns only on seven values. *)
Lemma sensor_predict_returns (m : sensor_model.SensorModel F) sensor_values r :
  model_predict (get_sensor_model m) sensor_values = inr r ↔
  sensor_model.is_loaded m = true ∧ length sensor_values = 7%nat ∧
  sensor_model.classify m sensor_values = inr r.
Proof.
  cbn. unfold sensor_model.predict.
  destruct (sensor_model.is_loaded m); cbn; [|split; [discriminate|intros [? _]; done]].
  case_bool_decide as Hlen.
  - split; [discriminate|]. intros (_ & Hseven & _). done.
  - split; [done|]. by intros (_ & _ & ?).
Qed.

Lemma sensor_predict_wrong_size (m : sensor_model.SensorModel F) sensor_values :
  sensor_model.is_loaded m = true → length sensor_values ≠ 7%nat →
  model_predict (get_sensor_model m) sensor_values =
  inl (ValueError ("Expected 7 sensor values, got " +:+ pretty (length sensor_values))).
Proof.
  intros Hloaded Hlen. cbn. unfold sensor_model.predict. rewrite Hloaded. cbn.
  by rewrite bool_decide_eq_true_2.
Qed.

(** The camera adapter raises when YOLO finds nobody, and when it finds a
    person with other than 17 keypoints. *)
Lemma camera_predict_no_subject (m : camera_model.CameraModel Frame F) frame :
  camera_model.is_loaded m = true → camera_model.yolo_model m frame = inr [] →
  model_predict (get_camera_model m) frame =
  inl (ValueError "No person detected in frame").
Proof.
  intros Hloaded Hyolo. cbn. unfold camera_model.predict.
  by rewrite Hloaded, Hyolo.
Qed.

Lemma camera_predict_malformed (m : camera_model.CameraModel Frame F) frame kps rest :
  camera_model.is_loaded m = true →
  camera_model.yolo_model m frame = inr (kps :: rest) →
  length kps ≠ 17%nat →
  model_predict (get_camera_model m) frame =
  inl (ValueError ("Invalid keypoints shape: (" +:+ pretty (length kps) +:+ ", 2)")).
Proof.
  intros Hloaded Hyolo Hlen. cbn. unfold camera_model.predict.
  rewrite Hloaded, Hyolo. cbn. by rewrite bool_decide_eq_true_2.
Qed.

End adapters.

Module fusion_logic_facts.
Import fusion_logic.

Section dictionaries.
Context {F : Type} `{Num F} `{Cmp F}.
Implicit Types (d : list (string * F)) (k : string) (v : F).

Lemma dict_set_fresh d k v :
  k ∉ d.*1 → dict_set d k v = d ++ [(k, v)].
Proof.
  induction d as [|[k' v'] d IH]; cbn; [done|].
  intros [Hne Hnin]%not_elem_of_cons.
  rewrite bool_decide_eq_false_2 by done. by rewrite IH.
Qed.

Lemma foldl_dict_set (g : string → F) d ks :
  NoDup (d.*1 ++ ks) →
  foldl (λ acc k, dict_set acc k (g k)) d ks = d ++ map (λ k, (k, g k)) ks.
Proof.
  revert d. induction ks as [|k ks IH]; intros d Hnd; cbn.
  - by rewrite app_nil_r.
  - apply NoDup_app in Hnd as (Hd & Hdis & Hks).
    rewrite dict_set_fresh by (intros Hin; apply (Hdis _ Hin); left).
    rewrite IH.
    + by rewrite <- app_assoc.
    + rewrite fmap_app. cbn. rewrite <- app_assoc. cbn.
      apply NoDup_app. split; [done|]. split; [done|exact Hks].
Qed.

Lemma combine_NoDup ws wc (sp cp : gmap string F) ks :
  NoDup ks →
  combine ws wc sp cp ks = map (λ k, (k, fused_prob ws wc sp cp k)) ks.
Proof.
  intros Hnd. unfold combine.
  by rewrite (foldl_dict_set (fused_prob ws wc sp cp) [] ks).
Qed.

Lemma dict_get_map (g : string → F) ks k :
  dict_get (map (λ k, (k, g k)) ks) k = if bool_decide (k ∈ ks) then Some (g k) else None.
Proof.
  induction ks as [|k' ks IH]; cbn; [done|].
  destruct (decide (k' = k)) as [->|Hne].
  - rewrite !bool_decide_eq_true_2; [done|left|done].
  - rewrite (bool_decide_eq_false_2 (k' = k)) by done. rewrite IH.
    destruct (decide (k ∈ ks)) as [Hin|Hnin].
    + rewrite !bool_decide_eq_true_2; [done|by right|done].
    + rewrite !bool_decide_eq_false_2; [done| |done].
      intros [?|?]%elem_of_cons; congruence.
Qed.

Context `{!CmpLaws F}.

(** [max]: the key returned is in the dictionary, and no value in the
    dictionary is [>] its value. *)
Lemma max_from_spec (best : string * F) (items : list (string * F)) :
  ∃ v, (max_from best items, v) ∈ best :: items ∧
       fgt best.2 v = false ∧
       (∀ kv, kv ∈ items → fgt kv.2 v = false) ∧
       (∀ x, fgt x best.2 = false → fgt x v = false).
Proof.
  revert best. induction items as [|kv items IH]; intros best; cbn.
  - exists best.2. destruct best as [k v]; cbn.
    split; [left|]. split; [apply fgt_irrefl|]. split; [|done].
    intros kv Hin. by apply elem_of_nil in Hin.
  - destruct (fgt kv.2 best.2) eqn:Hgt.
    + destruct (IH kv) as (v & Hin & Hkv & Hrest & Hcarry).
      assert (Hlower : ∀ x, fgt x best.2 = false → fgt x kv.2 = false).
      { intros x Hx. destruct (fgt x kv.2) eqn:Hxk; [|done].
        by rewrite (fgt_trans _ _ _ Hxk Hgt) in Hx. }
      exists v. split; [by right|].
      split; [apply Hcarry, Hlower, fgt_irrefl|]. split.
      * intros kv' [->|Hin']%elem_of_cons; [done|by apply Hrest].
      * intros x Hx. by apply Hcarry, Hlower.
    + destruct (IH best) as (v & Hin & Hbest & Hrest & Hcarry).
      exists v. split.
      { apply elem_of_cons in Hin as [Heq|Hin]; [rewrite Heq; left|right; by right]. }
      split; [done|]. split; [|done].
      intros kv' [->|Hin']%elem_of_cons; [by apply Hcarry|by apply Hrest].
Qed.

Lemma py_max_spec d :
  d ≠ [] →
  ∃ k v, py_max d = inr k ∧ (k, v) ∈ d ∧ ∀ kv, kv ∈ d → fgt kv.2 v = false.
Proof.
  destruct d as [|best items]; [done|]. intros _. cbn.
  destruct (max_from_spec best items) as (v & Hin & Hbest & Hrest & _).
  exists (max_from best items), v. split; [done|]. split; [done|].
  intros kv [->|Hin']%elem_of_cons; [done|by apply Hrest].
Qed.

End dictionaries.

Section arbiter.
Context {Frame F : Type} `{Num F} `{Cmp F}.
Variable set_iter : gset string → list string.
Implicit Types (self : FusionLogic Frame F) (sensor_values : list F)
  (camera_frame : option Frame) (log : list event).

Local Abbreviation predict := (fusion_logic.predict set_iter).

Lemma predict_sensor_only_returns self sensor_values label confidence log :
  model_predict (sensor_model self) sensor_values = inr (label, confidence) →
  predict_sensor_only self sensor_values log =
  (inr (label, confidence,
        <[ "camera_used" := MBool false ]>
        (<[ "sensor_confidence" := MFloat confidence ]>
        (<[ "mode" := MStr "sensor_only" ]> ∅))),
   log ++ [sensor_predict]).
Proof.
  intros Hs. unfold predict_sensor_only, M_bind, M_call. by rewrite Hs.
Qed.

Lemma predict_sensor_only_raises self sensor_values e log :
  model_predict (sensor_model self) sensor_values = inl e →
  predict_sensor_only self sensor_values log = (inl e, log ++ [sensor_predict]).
Proof.
  intros Hs. unfold predict_sensor_only, M_bind, M_call. by rewrite Hs.
Qed.

Lemma predict_no_frame self sensor_values :
  mode self ≠ "auto" →
  predict self sensor_values None = predict_sensor_only self sensor_values.
Proof.
  intros Hauto%String.eqb_neq. unfold fusion_logic.predict. rewrite Hauto.
  by repeat case_match.
Qed.

(** Which branch [predict] takes. *)
Lemma predict_mode self sensor_values camera_frame :
  predict self sensor_values camera_frame =
  if decide (mode self = "sensor_only") then predict_sensor_only self sensor_values
  else if decide (mode self = "camera_only") then
    match camera_frame with
    | None => predict_sensor_only self sensor_values
    | Some _ => predict_camera_only self camera_frame
    end
  else if decide (mode self = "auto") then
    predict_auto self sensor_values camera_frame
  else if decide (mode self = "fusion") then
    match camera_frame with
    | None => predict_sensor_only self sensor_values
    | Some _ => predict_fusion set_iter self sensor_values camera_frame
    end
  else predict_sensor_only self sensor_values.
Proof.
  unfold fusion_logic.predict.
  repeat match goal with
  | |- context [String.eqb (mode self) ?m] =>
      destruct (String.eqb_spec (mode self) m);
        [by rewrite decide_True by done|rewrite decide_False by done]
  end.
  reflexivity.
Qed.

Lemma predict_camera_only_mode self sensor_values camera_frame :
  mode self = "camera_only" →
  predict self sensor_values camera_frame =
  match camera_frame with
  | None => predict_sensor_only self sensor_values
  | Some _ => predict_camera_only self camera_frame
  end.
Proof. intros Hmode. unfold fusion_logic.predict. by rewrite Hmode. Qed.

Lemma predict_auto_mode self sensor_values camera_frame :
  mode self = "auto" →
  predict self sensor_values camera_frame = predict_auto self sensor_values camera_frame.
Proof. intros Hmode. unfold fusion_logic.predict. by rewrite Hmode. Qed.

Lemma predict_fusion_mode self sensor_values camera_frame :
  mode self = "fusion" →
  predict self sensor_values camera_frame =
  match camera_frame with
  | None => predict_sensor_only self sensor_values
  | Some _ => predict_fusion set_iter self sensor_values camera_frame
  end.
Proof. intros Hmode. unfold fusion_logic.predict. by rewrite Hmode. Qed.

(** C10: a mode outside the four known ones is served as [sensor_only]:
    the same computation, whatever the frame, hence the same result as
    under the mode "sensor_only", and a result whenever the sensor adapter
    returns. *)
Theorem unknown_mode_is_sensor_only self sensor_values camera_frame :
  mode self ∉ ["sensor_only"; "camera_only"; "auto"; "fusion"] →
  predict self sensor_values camera_frame = predict_sensor_only self sensor_values ∧
  (∀ frame', predict self sensor_values camera_frame =
             predict (update_config self (Some "sensor_only") None None)
                     sensor_values frame') ∧
  (∀ label confidence log,
     model_predict (sensor_model self) sensor_values = inr (label, confidence) →
     ∃ metadata,
       predict self sensor_values camera_frame log =
       (inr (label, confidence, metadata), log ++ [sensor_predict])).
Proof.
  intros Hmode.
  assert (Heq : predict self sensor_values camera_frame =
                predict_sensor_only self sensor_values).
  { rewrite predict_mode.
    repeat case_decide;
      first [reflexivity | exfalso; apply Hmode; set_solver]. }
  split; [exact Heq|]. split.
  - intros frame'. rewrite Heq. reflexivity.
  - intros label confidence log Hs. rewrite Heq.
    eexists. by apply predict_sensor_only_returns.
Qed.

Ltac run_M :=
  unfold predict_auto, predict_fusion, predict_camera_only, predict_sensor_only,
    M_bind, M_call, M_try, M_ret, M_raise.

(** C8: in camera_only mode a call without a frame is the sensor-only
    call; when the sensor adapter returns, so does [predict], and the
    metadata say so: mode "sensor_only", [camera_used] false, no camera
    confidence, unlike the metadata of any camera classification. *)
Theorem camera_only_without_frame self sensor_values :
  mode self = "camera_only" →
  predict self sensor_values None = predict_sensor_only self sensor_values ∧
  ∀ label confidence log,
    model_predict (sensor_model self) sensor_values = inr (label, confidence) →
    ∃ metadata,
      predict self sensor_values None log =
        (inr (label, confidence, metadata), log ++ [sensor_predict]) ∧
      metadata !! "mode" = Some (MStr "sensor_only") ∧
      metadata !! "camera_used" = Some (MBool false) ∧
      metadata !! "camera_confidence" = None ∧
      ∀ frame log1 r log2,
        predict_camera_only self frame log1 = (inr r, log2) →
        r.2 !! "mode" = Some (MStr "camera_only") ∧
        r.2 !! "camera_used" = Some (MBool true) ∧
        r.2 ≠ metadata.
Proof.
  intros Hmode.
  assert (Heq : predict self sensor_values None =
                predict_sensor_only self sensor_values).
  { apply predict_no_frame. by rewrite Hmode. }
  split; [exact Heq|].
  intros label confidence log Hs. rewrite Heq.
  rewrite (predict_sensor_only_returns _ _ _ _ _ Hs).
  eexists. split; [reflexivity|]. split; [done|]. split; [done|]. split; [done|].
  intros frame log1 r log2 Hcam. revert Hcam. run_M.
  destruct frame as [f|]; [|discriminate].
  destruct (model_predict (camera_model self) (Some f)) as [e|[cl cc]]; [discriminate|].
  intros [= <- <-]. cbn. split; [done|]. split; [done|].
  intros Heqm. apply (f_equal (λ m, m !! "camera_used")) in Heqm.
  by rewrite !lookup_insert_eq in Heqm.
Qed.

(** C3: in auto mode, a sensor confidence at or above the threshold is
    returned as it is, the log gains the sensor call only (the camera
    adapter is not called), and [camera_used] is false; below the
    threshold and without a frame the same holds. *)
Theorem auto_mode_short_circuit self sensor_values label confidence :
  mode self = "auto" →
  model_predict (sensor_model self) sensor_values = inr (label, confidence) →
  (fge confidence (auto_threshold self) = true →
   ∀ camera_frame log, ∃ metadata,
     predict self sensor_values camera_frame log =
       (inr (label, confidence, metadata), log ++ [sensor_predict]) ∧
     metadata !! "camera_used" = Some (MBool false)) ∧
  (fge confidence (auto_threshold self) = false →
   ∀ log, ∃ metadata,
     predict self sensor_values None log =
       (inr (label, confidence, metadata), log ++ [sensor_predict]) ∧
     metadata !! "camera_used" = Some (MBool false)).
Proof.
  intros Hmode Hs. split; intros Hge.
  - intros camera_frame log. rewrite (predict_auto_mode _ _ _ Hmode). run_M.
    rewrite Hs, Hge. eexists. split; [reflexivity|done].
  - intros log. rewrite (predict_auto_mode _ _ _ Hmode). run_M.
    rewrite Hs, Hge. eexists. split; [reflexivity|done].
Qed.

(** C5, as the code has it.  When the sensor adapter returns: without a
    frame every mode returns the sensor result with [camera_used] false;
    with a frame on which the camera adapter's [predict] raises, every mode
    but camera_only returns the sensor result with [camera_used] false,
    and with the exception text under [camera_error] when the camera was
    called; camera_only raises that exception.  When the sensor adapter
    raises, so does [predict], unless the mode is camera_only with a
    frame. *)
Theorem camera_failure_policy self sensor_values camera_frame log :
  (∀ label confidence,
     model_predict (sensor_model self) sensor_values = inr (label, confidence) →
     (camera_frame = None →
      ∃ metadata,
        predict self sensor_values camera_frame log =
          (inr (label, confidence, metadata), log ++ [sensor_predict]) ∧
        metadata !! "camera_used" = Some (MBool false)) ∧
     (∀ e, is_Some camera_frame →
           model_predict (camera_model self) camera_frame = inl e →
           (mode self ≠ "camera_only" →
            ∃ metadata log',
              predict self sensor_values camera_frame log =
                (inr (label, confidence, metadata), log') ∧
              metadata !! "camera_used" = Some (MBool false) ∧
              (log' = log ++ [sensor_predict] ∨
               log' = log ++ [sensor_predict; camera_predict] ∧
               metadata !! "camera_error" = Some (MStr (str e)))) ∧
           (mode self = "camera_only" →
            predict self sensor_values camera_frame log =
              (inl e, log ++ [camera_predict])))) ∧
  (∀ e, model_predict (sensor_model self) sensor_values = inl e →
        mode self ≠ "camera_only" ∨ camera_frame = None →
        predict self sensor_values camera_frame log = (inl e, log ++ [sensor_predict])).
Proof.
  split.
  - intros label confidence Hs. split.
    + intros ->. rewrite predict_mode.
      repeat case_decide; run_M; rewrite Hs; cbn;
        try (eexists; split; [reflexivity|done]).
      destruct (fge confidence (auto_threshold self));
        eexists; split; try reflexivity; done.
    + intros e [f ->] Hc. split.
      * intros Hmode. rewrite predict_mode.
        repeat case_decide; try done; run_M; rewrite Hs; cbn.
        -- eexists _, _. split; [reflexivity|]. split; [done|]. by left.
        -- destruct (fge confidence (auto_threshold self)).
           ++ eexists _, _. split; [reflexivity|]. split; [done|]. by left.
           ++ rewrite Hc. eexists _, _. split; [reflexivity|]. split; [done|].
              right. by rewrite <- app_assoc.
        -- rewrite Hc. eexists _, _. split; [reflexivity|]. split; [done|].
           right. by rewrite <- app_assoc.
        -- eexists _, _. split; [reflexivity|]. split; [done|]. by left.
      * intros Hmode. rewrite (predict_camera_only_mode _ _ _ Hmode). run_M.
        by rewrite Hc.
  - intros e Hs Hcase. rewrite predict_mode.
    destruct camera_frame as [f|].
    + destruct Hcase as [Hmode|?]; [|done].
      repeat case_decide; try done; run_M; by rewrite Hs.
    + repeat case_decide; run_M; by rewrite Hs.
Qed.

(** C4: in fusion mode, when both adapters return their predictions and
    distributions, the fused dictionary holds, for each label of either
    distribution, the weighted sum of its two probabilities (0 where a
    distribution lacks the label); the label returned is one of them, no
    label has a fused value [>] it, and the confidence returned is its fused
    value. *)
Theorem fusion_weighted_argmax `{!CmpLaws F} self sensor_values frame
    sensor_label sensor_confidence camera_label camera_confidence
    (sensor_probs camera_probs : gmap string F) (ws wc : F) log :
  (∀ s, set_iter s ≡ₚ elements s) →
  mode self = "fusion" →
  model_predict (sensor_model self) sensor_values =
    inr (sensor_label, sensor_confidence) →
  model_predict (camera_model self) (Some frame) =
    inr (camera_label, camera_confidence) →
  model_get_all_probabilities (sensor_model self) sensor_values = inr sensor_probs →
  model_get_all_probabilities (camera_model self) (Some frame) = inr camera_probs →
  fusion_weights self !! "sensor" = Some ws →
  fusion_weights self !! "camera" = Some wc →
  dom sensor_probs ∪ dom camera_probs ≠ ∅ →
  let all_labels := dom sensor_probs ∪ dom camera_probs in
  let fused := λ L, fadd (fmul ws (default (lit 0) (sensor_probs !! L)))
                         (fmul wc (default (lit 0) (camera_probs !! L))) in
  let fused_probs := combine ws wc sensor_probs camera_probs (set_iter all_labels) in
  (∀ L, L ∈ all_labels → dict_get fused_probs L = Some (fused L)) ∧
  (∀ L, L ∉ all_labels → dict_get fused_probs L = None) ∧
  ∃ label metadata,
    predict self sensor_values (Some frame) log =
      (inr (label, fused label, metadata),
       log ++ [sensor_predict; camera_predict;
               sensor_get_all_probabilities; camera_get_all_probabilities]) ∧
    label ∈ all_labels ∧
    (∀ L, L ∈ all_labels → fgt (fused L) (fused label) = false) ∧
    metadata !! "fused_label" = Some (MStr label) ∧
    metadata !! "fused_confidence" = Some (MFloat (fused label)) ∧
    metadata !! "camera_used" = Some (MBool true).
Proof.
  intros Hperm Hmode Hs Hc Hsp Hcp Hws Hwc Hne all_labels fused fused_probs.
  assert (Hin : ∀ L, L ∈ set_iter all_labels ↔ L ∈ all_labels).
  { intros L. rewrite (Hperm all_labels). apply elem_of_elements. }
  assert (Hnd : NoDup (set_iter all_labels)).
  { rewrite (Hperm all_labels). apply NoDup_elements. }
  assert (Hfp : fused_probs = map (λ k, (k, fused k)) (set_iter all_labels)).
  { unfold fused_probs. by rewrite combine_NoDup. }
  assert (Hget : ∀ L, dict_get fused_probs L =
                      if bool_decide (L ∈ all_labels) then Some (fused L) else None).
  { intros L. rewrite Hfp, dict_get_map.
    destruct (decide (L ∈ all_labels)) as [HL|HL].
    - rewrite (bool_decide_eq_true_2 _ HL).
      by rewrite bool_decide_eq_true_2 by (by apply Hin).
    - rewrite (bool_decide_eq_false_2 _ HL).
      by rewrite bool_decide_eq_false_2 by (by intros ?%Hin). }
  split; [intros L HL; by rewrite Hget, bool_decide_eq_true_2|].
  split; [intros L HL; by rewrite Hget, bool_decide_eq_false_2|].
  assert (Hnil : fused_probs ≠ []).
  { rewrite Hfp. intros Hnil%map_eq_nil. apply Hne.
    apply set_eq. intros L. split; [|by intros ?%elem_of_empty].
    intros HL%Hin. rewrite Hnil in HL. by apply elem_of_nil in HL. }
  destruct (py_max_spec fused_probs Hnil) as (label & v & Hmax & Hmem & Hbest).
  assert (Hlabel : label ∈ all_labels ∧ v = fused label).
  { rewrite Hfp in Hmem. apply list_elem_of_fmap in Hmem as (k & [= -> ->] & Hk).
    split; [by apply Hin|done]. }
  destruct Hlabel as [Hlabel ->].
  exists label. eexists. split; [|split; [exact Hlabel|split]].
  - rewrite (predict_fusion_mode _ _ _ Hmode). run_M. rewrite Hs, Hc, Hsp, Hcp.
    unfold fuse. rewrite Hws, Hwc.
    change (default (lit (4 # 10)) (Some ws)) with ws.
    change (default (lit (6 # 10)) (Some wc)) with wc.
    fold all_labels. fold fused_probs. rewrite Hmax. cbn [bind].
    unfold dict_item. rewrite Hget, bool_decide_eq_true_2 by done. cbn [bind ret].
    rewrite <- !app_assoc. reflexivity.
  - intros L HL. apply (Hbest (L, fused L)). rewrite Hfp.
    apply list_elem_of_fmap. exists L. split; [done|by apply Hin].
  - done.
Qed.

End arbiter.

Lemma unknown_mode_is_sensor_only_witness :
  fusion_logic.predict elements (examples.arbiter "turbo" examples.confident_sensor)
    examples.sensor_values (Some 1%nat) =
  predict_sensor_only (examples.arbiter "turbo" examples.confident_sensor)
    examples.sensor_values.
Proof.
  apply (unknown_mode_is_sensor_only elements
           (examples.arbiter "turbo" examples.confident_sensor)).
  apply (bool_decide_unpack _). by vm_compute.
Defined.

Lemma camera_only_without_frame_witness :
  fusion_logic.predict elements
    (examples.arbiter "camera_only" examples.confident_sensor)
    examples.sensor_values None =
  predict_sensor_only (examples.arbiter "camera_only" examples.confident_sensor)
    examples.sensor_values.
Proof.
  apply (camera_only_without_frame elements
           (examples.arbiter "camera_only" examples.confident_sensor)).
  reflexivity.
Defined.

Lemma auto_mode_short_circuit_witness :
  ∃ metadata,
    fusion_logic.predict elements (examples.arbiter "auto" examples.confident_sensor)
      examples.sensor_values (Some 1%nat) [] =
      (inr ("Leaning_forward", 9 # 10, metadata), [sensor_predict]) ∧
    metadata !! "camera_used" = Some (MBool false).
Proof.
  destruct (auto_mode_short_circuit elements
              (examples.arbiter "auto" examples.confident_sensor)
              examples.sensor_values "Leaning_forward" (9 # 10) eq_refl eq_refl)
    as [Hhigh _].
  exact (Hhigh eq_refl (Some 1%nat) []).
Defined.

Lemma camera_failure_policy_witness :
  ∃ metadata log',
    fusion_logic.predict elements (examples.arbiter "auto" examples.hesitant_sensor)
      examples.sensor_values (Some 0%nat) [] =
      (inr ("Leaning_forward", 6 # 10, metadata), log') ∧
    metadata !! "camera_used" = Some (MBool false) ∧
    (log' = [] ++ [sensor_predict] ∨
     log' = [] ++ [sensor_predict; camera_predict] ∧
     metadata !! "camera_error" = Some (MStr "No person detected in frame")).
Proof.
  destruct (camera_failure_policy elements
              (examples.arbiter "auto" examples.hesitant_sensor)
              examples.sensor_values (Some 0%nat) []) as [Hsensor _].
  destruct (Hsensor "Leaning_forward" (6 # 10) eq_refl) as [_ Hcamera].
  destruct (Hcamera (ValueError "No person detected in frame")
              (mk_is_Some _ _ eq_refl) eq_refl) as [Hrecovered _].
  apply Hrecovered. discriminate.
Defined.

(** C5, as stated, fails: in camera_only mode, with a frame in which the
    camera adapter finds nobody, the sensor adapter would return, yet
    [predict] raises. *)
Lemma camera_only_failure_propagates :
  model_predict (sensor_model examples.camera_only_arbiter) [1; 1; 1; 1; 1; 1; 1]%R =
    inr ("Correct_posture", 1%R) ∧
  fusion_logic.predict elements examples.camera_only_arbiter
    [1; 1; 1; 1; 1; 1; 1]%R (Some 0%nat) [] =
    (inl (ValueError "No person detected in frame"), [camera_predict]).
Proof. split; reflexivity. Qed.

Lemma fusion_weighted_argmax_witness :
  ∃ label metadata,
    (fusion_logic.predict elements (examples.arbiter "fusion" examples.hesitant_sensor)
       examples.sensor_values (Some 1%nat) []).1 =
      inr (label,
           fused_prob (4 # 10) (6 # 10)
             (camera_model.prob_dict ["Correct_posture"; "Leaning_forward"]
                                     [4 # 10; 6 # 10])
             (camera_model.prob_dict ["Correct_posture"; "Leaning_left"]
                                     [2 # 10; 8 # 10]) label,
           metadata) ∧
    metadata !! "fused_label" = Some (MStr label).
Proof.
  destruct (fusion_weighted_argmax elements
              (examples.arbiter "fusion" examples.hesitant_sensor)
              examples.sensor_values 1%nat "Leaning_forward" (6 # 10)
              "Leaning_left" (8 # 10)
              (camera_model.prob_dict ["Correct_posture"; "Leaning_forward"]
                                      [4 # 10; 6 # 10])
              (camera_model.prob_dict ["Correct_posture"; "Leaning_left"]
                                      [2 # 10; 8 # 10])
              (4 # 10) (6 # 10) [])
    as (_ & _ & label & metadata & Hrun & _ & _ & Hlabel & _).
  - reflexivity.
  - reflexivity.
  - reflexivity.
  - reflexivity.
  - reflexivity.
  - reflexivity.
  - reflexivity.
  - reflexivity.
  - apply (bool_decide_unpack _). by vm_compute.
  - exists label, metadata. split; [by rewrite Hrun|exact Hlabel].
Defined.

(** The weighted vote on the example: the camera's "Leaning_left" wins. *)
Example fusion_example :
  match (fusion_logic.predict elements
           (examples.arbiter "fusion" examples.hesitant_sensor)
           examples.sensor_values (Some 1%nat) []).1 with
  | inr (label, confidence, _) => label = "Leaning_left" ∧ Qeq confidence (48 # 100)
  | inl _ => False
  end.
Proof. vm_compute. split; reflexivity. Qed.

End fusion_logic_facts.

(** ** More on the warning tracker *)

Module api_more.
Import api api_facts.
Local Open Scope Z_scope.

Lemma warnings_of_snoc labels l :
  warnings_of (labels ++ [l]) =
  warnings_of labels ++ [(warning_step (tracker_after labels) l).2].
Proof.
  unfold warnings_of, tracker_after. rewrite feed_app. cbn [snd].
  by rewrite feed_cons.
Qed.

(** The flag of one step, from a tracker that satisfies the invariant. *)
Lemma warning_step_flag labels wt l :
  tracker_inv labels wt →
  (warning_step wt l).2 =
  is_bad_posture l && (5 <=? consecutive_count (warning_step wt l).1).
Proof.
  intros Hinv. pose proof Hinv as (HT & HW & _).
  unfold warning_step. rewrite consecutive_count_flag.
  set (u := update_tracker wt l).
  assert (HTu : warning_threshold u = 5).
  { unfold u, update_tracker. by repeat case_match. }
  assert (HWu : l ∈ warned_postures u → 5 ≤ consecutive_count u).
  { unfold u. destruct (decide (last_posture wt = Some l)) as [Hsame|Hchange].
    - rewrite (update_tracker_same _ _ Hsame). cbn. intros Hin.
      destruct (HW _ Hin) as (_ & -> & Hle). rewrite HT in Hle. cbn in Hle. lia.
    - rewrite (update_tracker_change _ _ Hchange). cbn.
      rewrite warned_after_change by (intros x Hx; by destruct (HW _ Hx) as (? & ? & _)).
      by intros ?%elem_of_empty. }
  unfold warning_flag. destruct (is_bad_posture l); [|done]. cbn.
  case_bool_decide as Hin.
  - cbn. symmetry. by apply Z.leb_le, HWu.
  - rewrite HTu. destruct (Z.geb_spec (consecutive_count u) 5) as [Hge|Hlt]; cbn.
    + symmetry. apply Z.leb_le. lia.
    + symmetry. apply Z.leb_gt. lia.
Qed.

(** X1: whatever came before, a call warns exactly when its label is a bad
    posture and the run of that label ending at this call is at least five
    long. *)
Theorem warning_iff_streak (labels : list string) (l : string) :
  warnings_of (labels ++ [l]) =
  warnings_of labels ++
    [is_bad_posture l && (5 <=? current_streak l (labels ++ [l]))].
Proof.
  rewrite warnings_of_snoc. f_equal. f_equal.
  rewrite (warning_step_flag labels) by apply tracker_inv_after.
  destruct (is_bad_posture l) eqn:Hbad; [|done]. cbn. f_equal.
  pose proof (tracker_inv_after (labels ++ [l])) as (_ & _ & Hlast).
  rewrite tracker_after_snoc in Hlast. rewrite last_posture_step in Hlast.
  destruct Hlast as [_ Hcount]. by rewrite Hbad in Hcount.
Qed.

(** X2: the tracker after a non-empty stream, in closed form: the last
    label, the length of its current run if it is bad and 0 otherwise, the
    threshold 5, and a warned set that is that label alone once the run has
    reached five and empty before. *)
Theorem tracker_closed_form (labels : list string) (l : string) :
  let run := current_streak l (labels ++ [l]) in
  tracker_after (labels ++ [l]) =
  {| last_posture := Some l;
     consecutive_count := if is_bad_posture l then run else 0;
     warning_threshold := 5;
     warned_postures := if is_bad_posture l && (5 <=? run) then {[ l ]} else ∅ |}.
Proof.
  intros run.
  pose proof (tracker_inv_after (labels ++ [l])) as (HT & HW & Hlast).
  pose proof (warning_step_flag labels (tracker_after labels) l
                (tracker_inv_after labels)) as Hflag.
  rewrite <- tracker_after_snoc in Hflag.
  assert (Hl : last_posture (tracker_after (labels ++ [l])) = Some l).
  { rewrite tracker_after_snoc. apply last_posture_step. }
  rewrite Hl in Hlast. destruct Hlast as [_ Hcount]. fold run in Hcount.
  assert (Hin : l ∈ warned_postures (tracker_after (labels ++ [l])) ↔
                (warning_step (tracker_after labels) l).2 = true).
  { rewrite tracker_after_snoc. unfold warning_step, warning_flag.
    set (u := update_tracker (tracker_after labels) l).
    destruct (is_bad_posture l) eqn:Hbad.
    - case_bool_decide as Hu; cbn; [done|].
      destruct (consecutive_count u >=? warning_threshold u); cbn.
      + split; [done|]. intros _. apply elem_of_union. right. by apply elem_of_singleton.
      + split; [done|discriminate].
    - cbn. split; [|discriminate]. intros Hu.
      pose proof (tracker_inv_step labels (tracker_after labels) l
                    (tracker_inv_after labels)) as (_ & HWs & _).
      unfold warning_step, warning_flag in HWs. rewrite Hbad in HWs. cbn in HWs.
      destruct (HWs _ Hu) as (_ & Hb & _). congruence. }
  destruct (tracker_after (labels ++ [l])) as [lp c T W]. cbn in *.
  subst lp. rewrite HT. f_equal; [exact Hcount|].
  rewrite Hflag in Hin. rewrite Hcount in Hin.
  apply set_eq. intros x. split.
  - intros Hx. destruct (HW _ Hx) as ([= <-] & Hb & _).
    apply Hin in Hx. destruct (is_bad_posture l); [|discriminate]. cbn in Hx.
    rewrite Hx. by apply elem_of_singleton.
  - destruct (is_bad_posture l && (5 <=? run)) eqn:Hcase.
    + intros ->%elem_of_singleton. apply Hin.
      destruct (is_bad_posture l); [|discriminate]. exact Hcase.
    + by intros ?%elem_of_empty.
Qed.

End api_more.

(** ** More on the arbiter *)

#[export] Instance Q_CmpTotal : CmpTotal Q.
Proof.
  split. intros x y z. cbn. rewrite !negb_true_iff, negb_false_iff.
  intros Hxy Hzy. apply not_true_iff_false. apply not_true_iff_false in Hxy.
  rewrite Qle_bool_iff in *. intros Hxz. apply Hxy. by apply Qle_trans with z.
Qed.

Module fusion_logic_more.
Import fusion_logic fusion_logic_facts.

Ltac run_M :=
  unfold predict_auto, predict_fusion, predict_camera_only, predict_sensor_only,
    M_bind, M_call, M_try, M_ret, M_raise.

Section arbiter.
Context {Frame F : Type} `{Num F} `{Cmp F}.
Variable set_iter : gset string → list string.
Implicit Types (self : FusionLogic Frame F) (sensor_values : list F)
  (camera_frame : option Frame) (log : list event).

Local Abbreviation predict := (fusion_logic.predict set_iter).

(** X3: without a frame the arbiter calls the sensor adapter once and no
    other adapter, in every mode and whatever the adapters do. *)
Theorem no_frame_no_camera_call self sensor_values log :
  (predict self sensor_values None log).2 = log ++ [sensor_predict].
Proof.
  rewrite predict_mode.
  repeat case_decide; run_M;
    destruct (model_predict (sensor_model self) sensor_values) as [e|[l c]];
    cbn; try done.
  by destruct (fge c (auto_threshold self)).
Qed.

(** X4: in auto mode, when the sensor confidence is below the threshold and
    the camera adapter returns, the camera's label and confidence are
    returned whatever the two confidences are; the metadata keep both
    adapters' answers and [camera_used] is true. *)
Theorem auto_mode_defers_to_camera self sensor_values frame
    sensor_label sensor_confidence camera_label camera_confidence log :
  mode self = "auto" →
  model_predict (sensor_model self) sensor_values =
    inr (sensor_label, sensor_confidence) →
  fge sensor_confidence (auto_threshold self) = false →
  model_predict (camera_model self) (Some frame) =
    inr (camera_label, camera_confidence) →
  ∃ metadata,
    predict self sensor_values (Some frame) log =
      (inr (camera_label, camera_confidence, metadata),
       log ++ [sensor_predict; camera_predict]) ∧
    metadata !! "camera_used" = Some (MBool true) ∧
    metadata !! "sensor_label" = Some (MStr sensor_label) ∧
    metadata !! "sensor_confidence" = Some (MFloat sensor_confidence) ∧
    metadata !! "camera_label" = Some (MStr camera_label) ∧
    metadata !! "camera_confidence" = Some (MFloat camera_confidence).
Proof.
  intros Hmode Hs Hlow Hc. rewrite (predict_auto_mode _ _ _ _ Hmode). run_M.
  rewrite Hs, Hlow, Hc. eexists. split; [by rewrite <- app_assoc|done].
Qed.

(** X5: in fusion mode, once both [predict] calls have returned, an
    exception of either [get_all_probabilities] call is raised to the
    caller: there is no fallback to the sensor result at that point. *)
Theorem fusion_distribution_failure_propagates self sensor_values frame
    sensor_label sensor_confidence camera_label camera_confidence e log :
  mode self = "fusion" →
  model_predict (sensor_model self) sensor_values =
    inr (sensor_label, sensor_confidence) →
  model_predict (camera_model self) (Some frame) =
    inr (camera_label, camera_confidence) →
  (model_get_all_probabilities (sensor_model self) sensor_values = inl e →
   predict self sensor_values (Some frame) log =
     (inl e, log ++ [sensor_predict; camera_predict; sensor_get_all_probabilities])) ∧
  (∀ sensor_probs,
     model_get_all_probabilities (sensor_model self) sensor_values = inr sensor_probs →
     model_get_all_probabilities (camera_model self) (Some frame) = inl e →
     predict self sensor_values (Some frame) log =
       (inl e, log ++ [sensor_predict; camera_predict;
                       sensor_get_all_probabilities; camera_get_all_probabilities])).
Proof.
  intros Hmode Hs Hc. rewrite (predict_fusion_mode _ _ _ _ Hmode). run_M.
  rewrite Hs, Hc. split.
  - intros ->. by rewrite <- !app_assoc.
  - intros sensor_probs -> ->. by rewrite <- !app_assoc.
Qed.

(** X6: a weight missing from [fusion_weights] counts as 0.4 for the
    sensor and 0.6 for the camera: the arbiter answers as it does with the
    two weights written out. *)
Theorem missing_weights_default self sensor_values camera_frame log :
  let explicit : gmap string F :=
    <[ "camera" := default (lit (6 # 10)) (fusion_weights self !! "camera") ]>
    (<[ "sensor" := default (lit (4 # 10)) (fusion_weights self !! "sensor") ]> ∅) in
  predict self sensor_values camera_frame log =
  predict (update_config self None None (Some explicit)) sensor_values camera_frame log.
Proof.
  intros explicit. rewrite !predict_mode.
  change (mode (update_config self None None (Some explicit))) with (mode self).
  repeat case_decide; reflexivity.
Qed.

(** X7: [update_config] changes only what it is given: an absent or empty
    mode, an absent threshold and an absent or empty weight dictionary leave
    the field as it was; a second identical call changes nothing more, and
    the adapters are never replaced. *)
Theorem update_config_partial self new_mode new_threshold new_weights :
  let self' := update_config self new_mode new_threshold new_weights in
  (new_mode = None ∨ new_mode = Some "" → mode self' = mode self) ∧
  (new_threshold = None → auto_threshold self' = auto_threshold self) ∧
  (new_weights = None ∨ new_weights = Some ∅ →
     fusion_weights self' = fusion_weights self) ∧
  (∀ m, new_mode = Some m → m ≠ "" → mode self' = m) ∧
  (∀ t, new_threshold = Some t → auto_threshold self' = t) ∧
  (∀ w, new_weights = Some w → w ≠ ∅ → fusion_weights self' = w) ∧
  sensor_model self' = sensor_model self ∧
  camera_model self' = camera_model self ∧
  update_config self' new_mode new_threshold new_weights = self'.
Proof.
  intros self'. unfold self', update_config. cbn.
  split; [by intros [->| ->]|].
  split; [by intros ->|].
  split; [by intros [->| ->]|].
  split; [intros m -> Hm%String.eqb_neq; by rewrite Hm|].
  split; [by intros t ->|].
  split; [intros w -> Hw; by rewrite bool_decide_eq_false_2|].
  split; [done|]. split; [done|].
  f_equal.
  - destruct new_mode as [m|]; [|done].
    destruct (String.eqb m "") eqn:Hm; by rewrite ?Hm.
  - by destruct new_threshold.
  - destruct new_weights as [w|]; [|done].
    by case_bool_decide.
Qed.

(** [max] returns the first of the greatest: its value is above every
    earlier value, and no later value is above it. *)
Lemma max_from_first `{!CmpLaws F} `{!CmpTotal F}
    (best : string * F) (items : list (string * F)) :
  ∃ pre v post,
    best :: items = pre ++ (max_from best items, v) :: post ∧
    (∀ kv, kv ∈ pre → fgt v kv.2 = true) ∧
    (∀ kv, kv ∈ post → fgt kv.2 v = false) ∧
    ((pre = [] ∧ (max_from best items, v) = best) ∨ fgt v best.2 = true).
Proof.
  revert best. induction items as [|kv items IH]; intros best.
  - exists [], best.2, []. destruct best as [k v]. cbn.
    split; [done|]. split; [by intros ? ?%elem_of_nil|].
    split; [by intros ? ?%elem_of_nil|by left].
  - cbn [max_from]. destruct (fgt kv.2 best.2) eqn:Hgt.
    + destruct (IH kv) as (pre & v & post & Heq & Hpre & Hpost & Hfirst).
      assert (Hbest : fgt v best.2 = true).
      { destruct Hfirst as [[_ Hkv]|Hv].
        - rewrite <- Hkv in Hgt. exact Hgt.
        - by apply fgt_trans with kv.2. }
      exists (best :: pre), v, post. split; [by rewrite Heq|].
      split; [|split; [done|by right]].
      intros x [->|Hx]%elem_of_cons; [done|by apply Hpre].
    + destruct (IH best) as (pre & v & post & Heq & Hpre & Hpost & Hfirst).
      destruct Hfirst as [[-> Hsame]|Hv].
      * cbn in Heq. rewrite Hsame in Heq. injection Heq as Hrest.
        exists [], v, (kv :: post). cbn. rewrite Hsame, <- Hrest.
        split; [done|]. split; [by intros ? ?%elem_of_nil|]. split; [|by left].
        intros x [->|Hx]%elem_of_cons; [|apply Hpost; by rewrite <- Hrest].
        apply (f_equal snd) in Hsame. cbn in Hsame. by rewrite Hsame.
      * destruct pre as [|b pre].
        { cbn in Heq. injection Heq as Hb _. rewrite Hb in Hv. cbn in Hv.
          by rewrite fgt_irrefl in Hv. }
        cbn in Heq. injection Heq as Hb Hrest. subst b.
        exists (best :: kv :: pre), v, post. cbn.
        split; [by do 2 f_equal|]. split; [|split; [done|by right]].
        intros x [->|[->|Hx]%elem_of_cons]%elem_of_cons.
        -- done.
        -- by apply fgt_neg_trans with best.2.
        -- apply Hpre. by right.
Qed.

Lemma py_max_first `{!CmpLaws F} `{!CmpTotal F} (d : list (string * F)) :
  d ≠ [] →
  ∃ pre k v post,
    py_max d = inr k ∧ d = pre ++ (k, v) :: post ∧
    (∀ kv, kv ∈ pre → fgt v kv.2 = true) ∧
    (∀ kv, kv ∈ post → fgt kv.2 v = false).
Proof.
  destruct d as [|best items]; [done|]. intros _.
  destruct (max_from_first best items) as (pre & v & post & Heq & Hpre & Hpost & _).
  by exists pre, (max_from best items), v, post.
Qed.

(** X8: in fusion mode, when both adapters return predictions and
    distributions and > compares all numbers, the label returned is the
    first label, in the iteration order of the label set, whose weighted sum
    is greatest: every label before it has a smaller sum and no label after
    it has a greater one. *)
Theorem fusion_first_maximum `{!CmpLaws F} `{!CmpTotal F} self sensor_values frame
    sensor_label sensor_confidence camera_label camera_confidence
    (sensor_probs camera_probs : gmap string F) log :
  (∀ s, set_iter s ≡ₚ elements s) →
  mode self = "fusion" →
  model_predict (sensor_model self) sensor_values =
    inr (sensor_label, sensor_confidence) →
  model_predict (camera_model self) (Some frame) =
    inr (camera_label, camera_confidence) →
  model_get_all_probabilities (sensor_model self) sensor_values = inr sensor_probs →
  model_get_all_probabilities (camera_model self) (Some frame) = inr camera_probs →
  dom sensor_probs ∪ dom camera_probs ≠ ∅ →
  let fused :=
    fused_prob (default (lit (4 # 10)) (fusion_weights self !! "sensor"))
               (default (lit (6 # 10)) (fusion_weights self !! "camera"))
               sensor_probs camera_probs in
  ∃ label metadata before after,
    (predict self sensor_values (Some frame) log).1 =
      inr (label, fused label, metadata) ∧
    set_iter (dom sensor_probs ∪ dom camera_probs) = before ++ label :: after ∧
    (∀ L, L ∈ before → fgt (fused label) (fused L) = true) ∧
    (∀ L, L ∈ after → fgt (fused L) (fused label) = false).
Proof.
  intros Hperm Hmode Hs Hc Hsp Hcp Hne fused.
  set (all_labels := dom sensor_probs ∪ dom camera_probs) in *.
  assert (Hnd : NoDup (set_iter all_labels)).
  { rewrite (Hperm all_labels). apply NoDup_elements. }
  set (fused_probs :=
         combine (default (lit (4 # 10)) (fusion_weights self !! "sensor"))
                 (default (lit (6 # 10)) (fusion_weights self !! "camera"))
                 sensor_probs camera_probs (set_iter all_labels)).
  assert (Hfp : fused_probs = (λ k, (k, fused k)) <$> set_iter all_labels).
  { unfold fused_probs. by rewrite combine_NoDup. }
  assert (Hnil : fused_probs ≠ []).
  { rewrite Hfp. intros Hnil%fmap_nil_inv. apply Hne.
    apply set_eq. intros L. rewrite <- elem_of_elements, <- (Hperm all_labels), Hnil.
    set_solver. }
  destruct (py_max_first fused_probs Hnil)
    as (pre & label & v & post & Hmax & Heq & Hpre & Hpost).
  rewrite Hfp in Heq.
  apply fmap_app_inv in Heq as (before & rest & -> & Hrest & Hks).
  symmetry in Hrest. apply fmap_cons_inv in Hrest as (k & after & [= Hk Hv] & -> & ->).
  subst k v.
  assert (Hget : dict_get fused_probs label = Some (fused label)).
  { rewrite Hfp. change (dict_get (map (λ k, (k, fused k)) (set_iter all_labels)) label
                         = Some (fused label)).
    rewrite dict_get_map, bool_decide_eq_true_2; [done|].
    rewrite Hks. apply elem_of_app. right. left. }
  exists label. eexists. exists before, after. split; [|split; [exact Hks|split]].
  - rewrite (predict_fusion_mode _ _ _ _ Hmode). run_M. rewrite Hs, Hc, Hsp, Hcp.
    unfold fuse. fold all_labels. fold fused_probs.
    rewrite Hmax. cbn [bind]. unfold dict_item. rewrite Hget. reflexivity.
  - intros L HL. apply (Hpre (L, fused L)).
    apply list_elem_of_fmap. by exists L.
  - intros L HL. apply (Hpost (L, fused L)).
    apply list_elem_of_fmap. by exists L.
Qed.

End arbiter.

Lemma fusion_first_maximum_witness :
  ∃ label metadata before after,
    (fusion_logic.predict elements
       (examples.arbiter "fusion" examples.hesitant_sensor)
       examples.sensor_values (Some 1%nat) []).1 =
      inr (label,
           fused_prob (4 # 10) (6 # 10)
             (camera_model.prob_dict ["Correct_posture"; "Leaning_forward"]
                                     [4 # 10; 6 # 10])
             (camera_model.prob_dict ["Correct_posture"; "Leaning_left"]
                                     [2 # 10; 8 # 10]) label,
           metadata) ∧
    elements (dom (camera_model.prob_dict ["Correct_posture"; "Leaning_forward"]
                                          [4 # 10; 6 # 10]) ∪
              dom (camera_model.prob_dict ["Correct_posture"; "Leaning_left"]
                                          [2 # 10; 8 # 10])) =
      before ++ label :: after.
Proof.
  destruct (fusion_first_maximum elements
              (examples.arbiter "fusion" examples.hesitant_sensor)
              examples.sensor_values 1%nat "Leaning_forward" (6 # 10)
              "Leaning_left" (8 # 10)
              (camera_model.prob_dict ["Correct_posture"; "Leaning_forward"]
                                      [4 # 10; 6 # 10])
              (camera_model.prob_dict ["Correct_posture"; "Leaning_left"]
                                      [2 # 10; 8 # 10]) [])
    as (label & metadata & before & after & Hrun & Horder & _).
  - reflexivity.
  - reflexivity.
  - reflexivity.
  - reflexivity.
  - reflexivity.
  - reflexivity.
  - apply (bool_decide_unpack _). by vm_compute.
  - exists label, metadata, before, after. split; [exact Hrun|exact Horder].
Defined.

Lemma fusion_distribution_failure_propagates_witness :
  fusion_logic.predict elements
    (examples.arbiter "fusion" examples.undistributed_sensor)
    examples.sensor_values (Some 1%nat) [] =
  (inl (LibraryError "predict_proba is not available"),
   [] ++ [sensor_predict; camera_predict; sensor_get_all_probabilities]).
Proof.
  apply (fusion_distribution_failure_propagates elements
           (examples.arbiter "fusion" examples.undistributed_sensor)
           examples.sensor_values 1%nat "Leaning_forward" (6 # 10)
           "Leaning_left" (8 # 10)
           (LibraryError "predict_proba is not available") []);
    reflexivity.
Defined.

Lemma auto_mode_defers_to_camera_witness :
  ∃ metadata,
    fusion_logic.predict elements (examples.arbiter "auto" examples.hesitant_sensor)
      examples.sensor_values (Some 1%nat) [] =
      (inr ("Leaning_left", 8 # 10, metadata), [] ++ [sensor_predict; camera_predict]) ∧
    metadata !! "camera_used" = Some (MBool true).
Proof.
  destruct (auto_mode_defers_to_camera elements
              (examples.arbiter "auto" examples.hesitant_sensor)
              examples.sensor_values 1%nat "Leaning_forward" (6 # 10)
              "Leaning_left" (8 # 10) [])
    as (metadata & Hrun & Hused & _); [reflexivity..|].
  exists metadata. split; [exact Hrun|exact Hused].
Defined.

End fusion_logic_more.

(** ** More on the adapters *)

Module adapters_more.
Import camera_model camera_model_facts.

Section generic.
Context {Frame F : Type} `{Num F} `{Elementary F}.
Implicit Types kps : list (F * F).

(** X9: the sensor adapter validates its input the same way in both
    methods: each returns exactly when the model is loaded, seven values
    are given and the classifier returns; with a loaded model and another
    number of values both raise the same [ValueError]. *)
Theorem sensor_adapter_validation (m : sensor_model.SensorModel F) sensor_values :
  (∀ r, sensor_model.predict m sensor_values = inr r ↔
        sensor_model.is_loaded m = true ∧ length sensor_values = 7%nat ∧
        sensor_model.classify m sensor_values = inr r) ∧
  (∀ d, sensor_model.get_all_probabilities m sensor_values = inr d ↔
        sensor_model.is_loaded m = true ∧ length sensor_values = 7%nat ∧
        ∃ probabilities,
          sensor_model.predict_proba m sensor_values = inr probabilities ∧
          d = prob_dict (sensor_model.classes_ m) probabilities) ∧
  (sensor_model.is_loaded m = true → length sensor_values ≠ 7%nat →
   let e := ValueError ("Expected 7 sensor values, got " +:+
                        pretty (length sensor_values)) in
   sensor_model.predict m sensor_values = inl e ∧
   sensor_model.get_all_probabilities m sensor_values = inl e).
Proof.
  unfold sensor_model.predict, sensor_model.get_all_probabilities.
  split; [|split].
  - intros r. destruct (sensor_model.is_loaded m); cbn;
      [|split; [done|by intros [? _]]].
    case_bool_decide as Hlen.
    + split; [done|]. by intros (_ & ? & _).
    + split; [done|]. by intros (_ & _ & ?).
  - intros d. destruct (sensor_model.is_loaded m); cbn;
      [|split; [done|by intros [? _]]].
    case_bool_decide as Hlen; [split; [done|]; by intros (_ & ? & _)|].
    destruct (sensor_model.predict_proba m sensor_values) as [e|p]; cbn.
    + split; [done|]. by intros (_ & _ & p & ? & _).
    + split.
      * intros [= <-]. eauto.
      * by intros (_ & _ & p' & [= <-] & ->).
  - intros Hloaded Hlen. rewrite Hloaded. cbn. by rewrite bool_decide_eq_true_2.
Qed.

(** X10: the camera adapter's [predict] returns exactly when the model is
    loaded, YOLO returns at least one person, the first person has 17
    keypoints and the random forest returns on that person's feature
    vector; other persons in the frame are ignored. *)
Theorem camera_predict_returns (m : CameraModel Frame F) frame r :
  predict m frame = inr r ↔
  is_loaded m = true ∧
  ∃ kps others,
    yolo_model m frame = inr (kps :: others) ∧ length kps = 17%nat ∧
    rf_classify m (map (eval (valuation kps)) symbolic_features) = inr r.
Proof.
  unfold predict. destruct (is_loaded m); cbn; [|split; [done|by intros [? _]]].
  destruct (yolo_model m frame) as [e|[|kps others]]; cbn;
    [split; [done|]; by intros (_ & ? & ? & ? & _)..|].
  case_bool_decide as Hlen.
  - split; [done|]. intros (_ & kps' & others' & [= <- <-] & Hlen' & _). done.
  - rewrite (_extract_features_eval kps Hlen). cbn. split.
    + intros Hr. split; [done|]. eauto.
    + by intros (_ & kps' & others' & [= <- <-] & _ & Hr).
Qed.

Lemma _extract_features_app kps extra :
  length kps = 17%nat →
  _extract_features (kps ++ extra) = _extract_features kps.
Proof. intros Hlen. seventeen kps Hlen. reflexivity. Qed.

(** X11: feature extraction reads the first 17 keypoints only: of a longer
    list it gives the vector of its first 17 keypoints, so keypoints after
    the seventeenth do not change the vector. *)
Theorem _extract_features_first_17 kps :
  (17 ≤ length kps)%nat →
  _extract_features kps = _extract_features (take 17 kps).
Proof.
  intros Hlen. rewrite <- (take_drop 17 kps) at 1.
  apply _extract_features_app. rewrite length_take. lia.
Qed.

(** X12: on fewer than 17 keypoints feature extraction raises the
    [IndexError] of the first relevant keypoint that is missing. *)
Theorem _extract_features_too_short kps :
  (length kps < 17)%nat →
  ∃ idx,
    first_out_of_bounds (length kps) RELEVANT_KEYPOINTS = Some idx ∧
    _extract_features kps =
      inl (IndexError ("index " +:+ pretty idx +:+
                       " is out of bounds for axis 0 with size " +:+
                       pretty (length kps))).
Proof.
  intros Hlen.
  do 17 (destruct kps as [|[? ?] kps];
         [eexists; split; [by vm_compute|reflexivity]|]).
  cbn in Hlen. lia.
Qed.

(** X13: [get_all_probabilities] does not check the number of keypoints:
    on a first person with more than 17 keypoints [predict] raises
    "Invalid keypoints shape" while [get_all_probabilities] goes on with the
    first 17. *)
Theorem camera_methods_disagree (m : CameraModel Frame F) frame kps extra others :
  is_loaded m = true →
  length kps = 17%nat → extra ≠ [] →
  yolo_model m frame = inr ((kps ++ extra) :: others) →
  predict m frame =
    inl (ValueError ("Invalid keypoints shape: (" +:+
                     pretty (17 + length extra)%nat +:+ ", 2)")) ∧
  get_all_probabilities m frame =
    bind (rf_predict_proba m (map (eval (valuation kps)) symbolic_features))
         (λ probabilities, ret (prob_dict (classes_ m) probabilities)).
Proof.
  intros Hloaded Hlen Hextra Hyolo.
  unfold predict, get_all_probabilities. rewrite Hloaded, Hyolo. cbn.
  rewrite length_app, Hlen. split.
  - rewrite bool_decide_eq_true_2; [done|]. destruct extra; [done|]. cbn. lia.
  - rewrite (_extract_features_app kps extra Hlen).
    by rewrite (_extract_features_eval kps Hlen).
Qed.

(** X14: the probability dictionary pairs the classes with the
    probabilities by position: a class is a key exactly when a probability
    stands at its position, and that probability is its value. *)
Theorem prob_dict_lookup (classes : list string) (probabilities : list F) c p :
  NoDup classes →
  prob_dict classes probabilities !! c = Some p ↔
  ∃ i, classes !! i = Some c ∧ probabilities !! i = Some p.
Proof.
  intros Hnd. unfold prob_dict.
  assert (Hgen : ∀ (l : list (string * F)) (d : gmap string F),
             NoDup l.*1 →
             foldl (λ d kv, <[ kv.1 := kv.2 ]> d) d l !! c = Some p ↔
             (c, p) ∈ l ∨ ((c ∉ l.*1) ∧ d !! c = Some p)).
  { induction l as [|[k v] l IH]; intros d Hl; cbn.
    - split; [intros ?; right; split; [by intros ?%elem_of_nil|done]|].
      intros [?%elem_of_nil|[_ ?]]; done.
    - apply NoDup_cons in Hl as [Hk Hl]. rewrite (IH _ Hl). split.
      + intros [Hin|[Hnin Hd]]; [left; by right|].
        destruct (decide (k = c)) as [->|Hne].
        * rewrite lookup_insert_eq in Hd. injection Hd as ->. left. left.
        * rewrite lookup_insert_ne in Hd by done. right. split; [|done].
          intros [?|?]%elem_of_cons; done.
      + intros [[[= <- <-]|Hin]%elem_of_cons|[Hnin Hd]].
        * right. split; [done|]. by rewrite lookup_insert_eq.
        * by left.
        * apply not_elem_of_cons in Hnin as [Hne Hnin]. right. split; [done|].
          by rewrite lookup_insert_ne. }
  rewrite Hgen.
  - rewrite lookup_empty. split.
    + intros [Hin|[_ ?]]; [|done].
      apply list_elem_of_lookup in Hin as [i Hi].
      apply lookup_zip_with_Some in Hi as (x & y & [= <- <-] & ? & ?). eauto.
    + intros (i & Hc & Hp). left. apply list_elem_of_lookup. exists i.
      apply lookup_zip_with_Some. eauto.
  - apply (sublist_NoDup _ classes Hnd). clear.
    revert probabilities. induction classes as [|x classes IH]; intros [|y ps]; cbn.
    + constructor.
    + constructor.
    + apply sublist_nil_l.
    + by apply sublist_skip.
Qed.

End generic.

Lemma camera_methods_disagree_witness :
  predict (Frame := nat) (F := expr)
    {| is_loaded := true;
       yolo_model := λ _, inr [symbolic_keypoints ++ [(Lit 0, Lit 0)]];
       rf_classify := λ _, inr ("Correct_posture", Lit 1);
       rf_predict_proba := λ _, inr [Lit 1];
       classes_ := ["Correct_posture"] |} None =
  inl (ValueError ("Invalid keypoints shape: (" +:+ pretty 18%nat +:+ ", 2)")).
Proof.
  eapply (camera_methods_disagree (Frame := nat) (F := expr) _ None
            symbolic_keypoints [(Lit 0, Lit 0)] []); [reflexivity..|done|reflexivity].
Defined.

Lemma _extract_features_first_17_witness :
  _extract_features (symbolic_keypoints ++ [(Lit 0, Lit 0)]) =
  _extract_features (take 17 (symbolic_keypoints ++ [(Lit 0, Lit 0)])).
Proof.
  apply (_extract_features_first_17 (symbolic_keypoints ++ [(Lit 0, Lit 0)])).
  cbn. lia.
Defined.

Lemma _extract_features_too_short_witness :
  ∃ idx,
    first_out_of_bounds 10 RELEVANT_KEYPOINTS = Some idx ∧
    _extract_features (take 10 symbolic_keypoints) =
      inl (IndexError ("index " +:+ pretty idx +:+
                       " is out of bounds for axis 0 with size " +:+ pretty 10%nat)).
Proof.
  apply (_extract_features_too_short (take 10 symbolic_keypoints)). cbn. lia.
Defined.

Lemma prob_dict_lookup_witness :
  prob_dict ["Correct_posture"; "Leaning_left"] [2 # 10; 8 # 10]%Q !! "Leaning_left"
    = Some (8 # 10)%Q.
Proof.
  apply (prob_dict_lookup (F := Q)).
  - apply (bool_decide_unpack _). by vm_compute.
  - exists 1%nat. split; reflexivity.
Defined.

End adapters_more.

(** ** The geometry of the features, over the reals *)

Module geometry.
Import camera_model camera_model_facts.
Local Open Scope R_scope.




Section translation.
Variables dx dy : R.
Local Abbreviation move := (translate dx dy).

Lemma translate_dx (p q : R * R) : (move p).1 - (move q).1 = p.1 - q.1.
Proof. cbn. lra. Qed.

Lemma translate_dy (p q : R * R) : (move p).2 - (move q).2 = p.2 - q.2.
Proof. cbn. lra. Qed.

Lemma translate_midpoint (p q : R * R) :
  (((move p).1 + (move q).1) / lit 2, ((move p).2 + (move q).2) / lit 2) =
  move ((p.1 + q.1) / lit 2, (p.2 + q.2) / lit 2).
Proof.
  assert (Htwo : Q2R 2 = 2) by (unfold Q2R; cbn; lra).
  unfold translate. cbn. rewrite Htwo. f_equal; lra.
Qed.

Lemma translate_distance (p q : R * R) :
  _calculate_distance (move p) (move q) = _calculate_distance p q.
Proof.
  unfold _calculate_distance.
  change (fsub ?a ?b) with (a - b). by rewrite translate_dx, translate_dy.
Qed.

Lemma translate_angle (p1 p2 p3 : R * R) :
  _calculate_angle (move p1) (move p2) (move p3) = _calculate_angle p1 p2 p3.
Proof.
  unfold _calculate_angle.
  change (fsub ?a ?b) with (a - b). by rewrite !translate_dx, !translate_dy.
Qed.

Lemma getitem_translate (kps : list (R * R)) i :
  getitem (map move kps) i =
  match getitem kps i with inl e => inl e | inr p => inr (move p) end.
Proof.
  unfold getitem. rewrite list_lookup_fmap, length_map.
  by destruct (kps !! i).
Qed.

(** X17: the derived features do not depend on where the person stands in
    the image: moving all keypoints by the same vector leaves every derived
    feature, and every error, as it was. *)
Theorem derived_features_translation_invariant (kps : list (R * R)) :
  _extract_derived_features (map move kps) = _extract_derived_features kps.
Proof.
  unfold _extract_derived_features.
  rewrite !getitem_translate.
  do 9 (match goal with
  | |- context [getitem kps ?i] =>
      destruct (getitem kps i) as [?|?]; [reflexivity|]; cbn [bind]
  end).
  f_equal.
  change (fsub ?a ?b) with (a - b). change (fadd ?a ?b) with (a + b).
  change (fdiv ?a ?b) with (a / b).
  rewrite !translate_midpoint.
  rewrite !translate_angle, !translate_distance.
  change ((move ?p).2 - (move ?q).2) with ((move p).2 - (move q).2).
  rewrite !translate_dx, !translate_dy.
  reflexivity.
Qed.
End translation.

End geometry.

(** ** More on the frame source *)

Module camera_manager_more.
Import camera_manager camera_manager_facts.

Section frames.
Context {Frame : Type}.
Implicit Types (self : CameraManager Frame) (a : action Frame)
  (acts : list (action Frame)).

Lemma step_current_frame self a self' r :
  step self a = Some (self', r) →
  current_frame self' = last_stored (current_frame self) [a].
Proof.
  destruct a; cbn; intros Hstep;
    try (destruct (capture_thread self && running self && _); [|done]);
    by inversion Hstep.
Qed.

(** X18: the shared frame slot after any run holds the last frame the
    capture thread stored, or what it held before if the thread stored none:
    no method call writes the slot, and both readers return it. *)
Theorem freshest_frame self acts self' :
  run self acts = Some self' →
  current_frame self' = last_stored (current_frame self) acts ∧
  get_frame self' = last_stored (current_frame self) acts ∧
  (capture_for_inference self').2 = inr (last_stored (current_frame self) acts).
Proof.
  intros Hrun.
  assert (Hcur : current_frame self' = last_stored (current_frame self) acts).
  { revert self Hrun. induction acts as [|a acts IH]; intros self Hrun; cbn in Hrun.
    - by inversion Hrun.
    - destruct (step self a) as [[self1 r]|] eqn:Hstep; [|done].
      rewrite (IH _ Hrun). by rewrite (step_current_frame _ _ _ _ Hstep). }
  split; [exact Hcur|]. split; [exact Hcur|].
  unfold capture_for_inference. cbn. by rewrite Hcur.
Qed.

(** X19: a manager whose device opened and took its settings is
    available, runs its capture thread and holds no frame yet: a capture
    for inference made before the thread has stored a frame returns
    [None]. *)
Theorem successful_start (dev : Device) (index w h : option Z) :
  dev_open dev = vc_returns true → dev_props dev = None →
  ∃ self,
    __init__ dev index w h = inr self ∧
    is_opened self = true ∧ capture_thread self = true ∧ running self = true ∧
    is_available self = true ∧
    st_has_frame (get_status self) = false ∧
    (capture_for_inference self).2 = inr None ∧
    ∀ f, ∃ self', step self (thread_store f) = Some (self', resp_none) ∧
                  (capture_for_inference self').2 = inr (Some f).
Proof.
  intros Hopen Hprops. unfold __init__, _init_camera, _init_camera_try.
  rewrite Hopen, Hprops. cbn. eexists. split; [reflexivity|].
  cbn. split_and!; try done. intros f. eexists. split; reflexivity.
Qed.

(** X20: a device that opens but raises while its properties are set
    leaves the manager unavailable and without a capture thread, although
    the capture object it holds is open. *)
Theorem settings_failure_degrades (dev : Device) (index w h : option Z) e :
  dev_open dev = vc_returns true → dev_props dev = Some e →
  ∃ self,
    __init__ dev index w h = inr self ∧
    degraded self ∧ cap self = Some true ∧
    is_available self = false.
Proof.
  intros Hopen Hprops. unfold __init__, _init_camera, _init_camera_try.
  rewrite Hopen, Hprops. cbn. eexists. split; [reflexivity|]. done.
Qed.

(** X21: [release] can be called twice with the effect of once; after it
    the capture thread never acts again, the manager never reports itself
    available, and the frame held at release stays readable. *)
Theorem release_is_final self acts self' :
  release (release self) = release self ∧
  (run (release self) acts = Some self' →
   forallb is_call acts = true ∧
   is_available self' = false ∧
   is_opened self' = false ∧
   get_frame self' = current_frame self).
Proof.
  split.
  - unfold release. cbn. by destruct (cap self).
  - set (s := release self).
    assert (Hs : is_opened s = false ∧ capture_thread s = false ∧
                 current_frame s = current_frame self) by done.
    clearbody s. revert s Hs.
    induction acts as [|a acts IH]; intros s (Hopen & Hthread & Hframe) Hrun.
    + cbn in Hrun. inversion Hrun; subst.
      unfold is_available, get_frame. by rewrite Hopen.
    + cbn in Hrun. destruct (step s a) as [[s1 r]|] eqn:Hstep; [|done].
      assert (Hcall : is_call a = true).
      { destruct a; try done; cbn in Hstep; by rewrite Hthread in Hstep. }
      cbn. rewrite Hcall. cbn. apply (IH s1); [|done].
      destruct a; try done; cbn in Hstep; inversion Hstep; subst; done.
Qed.

End frames.

Lemma freshest_frame_witness :
  __init__ examples.good_device None None None = inr examples.started ∧
  ∃ self',
    run examples.started [thread_store 7%nat; call_get_status; thread_store 8%nat;
                          call_capture_for_inference] = Some self' ∧
    (capture_for_inference self').2 = inr (Some 8%nat).
Proof.
  split; [reflexivity|]. eexists. split; [reflexivity|].
  exact (proj2 (proj2 (freshest_frame examples.started
           [thread_store 7%nat; call_get_status; thread_store 8%nat;
            call_capture_for_inference] _ eq_refl))).
Defined.

Lemma successful_start_witness :
  ∃ self : CameraManager nat,
    __init__ {| dev_open := vc_returns true; dev_props := None |} None None None
      = inr self ∧
    is_available self = true.
Proof.
  destruct (successful_start (Frame := nat)
              {| dev_open := vc_returns true; dev_props := None |} None None None
              eq_refl eq_refl) as (self & Hinit & _ & _ & _ & Havailable & _).
  exists self. split; [exact Hinit|exact Havailable].
Defined.

Lemma settings_failure_degrades_witness :
  ∃ self : CameraManager nat,
    __init__ {| dev_open := vc_returns true;
                dev_props := Some (LibraryError "VIDIOC_S_FMT") |} None None None
      = inr self ∧
    is_available self = false.
Proof.
  destruct (settings_failure_degrades (Frame := nat)
              {| dev_open := vc_returns true;
                 dev_props := Some (LibraryError "VIDIOC_S_FMT") |} None None None
              (LibraryError "VIDIOC_S_FMT") eq_refl eq_refl)
    as (self & Hinit & _ & _ & Hunavailable).
  exists self. split; [exact Hinit|exact Hunavailable].
Defined.

Lemma release_is_final_witness :
  ∃ self',
    run (release examples.started) [call_get_frame; call_is_available] = Some self' ∧
    is_available self' = false.
Proof.
  eexists. split; [reflexivity|].
  exact (proj1 (proj2 (proj2 (release_is_final examples.started
           [call_get_frame; call_is_available] _) eq_refl))).
Defined.

End camera_manager_more.

(** ** More on the [predict] endpoint *)

Module api_predict_more.
Import fusion_logic fusion_logic_facts api_predict.

Ltac run_M :=
  unfold predict_auto, predict_fusion, predict_camera_only, predict_sensor_only,
    M_bind, M_call, M_try, M_ret, M_raise.

Section handler.
Context {J Frame F : Type} `{Num F} `{Cmp F}.
Variable py_float : J → result F.
Variable format_2f : F → string.
Variable float_truthy : F → bool.
Variable other_str : meta F → string.
Variable other_ne : meta F → meta F → bool.
Variable set_iter : gset string → list string.

Local Abbreviation read_sensors := (api_predict.read_sensors py_float).
Local Abbreviation extract_sensor_values := (api_predict.extract_sensor_values py_float).
Local Abbreviation fusion_reason :=
  (api_predict.fusion_reason format_2f float_truthy other_str other_ne).
Local Abbreviation predict := (fusion_logic.predict (Frame := Frame) set_iter).
Local Abbreviation reads := (api_predict.reads py_float).

Lemma read_sensors_returns data i n acc sensor_values :
  read_sensors data i n acc = inr sensor_values ↔
  ∃ new, sensor_values = acc ++ new ∧ Forall2 (reads data) (seq i n) new.
Proof.
  revert i acc. induction n as [|n IH]; intros i acc; cbn.
  - split.
    + intros [= <-]. exists []. by rewrite app_nil_r.
    + intros (new & -> & ->%Forall2_nil_inv_l). by rewrite app_nil_r.
  - destruct (data !! ("sensor" +:+ pretty i)) as [x|] eqn:Hx.
    + destruct (py_float x) as [e|v] eqn:Hv.
      * split; [done|].
        intros (new & _ & (v & new' & (x' & Hx' & Hv') & _ & _)%Forall2_cons_inv_l).
        congruence.
      * rewrite IH. split.
        -- intros (new & -> & Hall). exists (v :: new).
           split; [by rewrite <- app_assoc|]. constructor; [|done]. by exists x.
        -- intros (new & -> & (v' & new' & (x' & Hx' & Hv') & Hall & ->)%Forall2_cons_inv_l).
           assert (v' = v) as -> by congruence.
           exists new'. split; [by rewrite <- app_assoc|done].
    + split; [done|].
      intros (new & _ & (v & new' & (x' & Hx' & _) & _ & _)%Forall2_cons_inv_l).
      congruence.
Qed.

(** X22: the endpoint hands the arbiter a vector exactly when the body is
    not empty and holds convertible values under "sensor1" to "sensor7";
    the vector is those seven values in that order, whatever else the body
    holds, so a loaded sensor adapter never rejects its size. *)
Theorem extract_sensor_values_returns (data : gmap string J) sensor_values :
  (extract_sensor_values data = inr sensor_values ↔
   data ≠ ∅ ∧ Forall2 (reads data) (seq 1 7) sensor_values) ∧
  (extract_sensor_values data = inr sensor_values →
   length sensor_values = 7%nat ∧
   ∀ m : sensor_model.SensorModel F,
     sensor_model.is_loaded m = true →
     sensor_model.predict m sensor_values = sensor_model.classify m sensor_values).
Proof.
  assert (Hiff : extract_sensor_values data = inr sensor_values ↔
                 data ≠ ∅ ∧ Forall2 (reads data) (seq 1 7) sensor_values).
  { unfold api_predict.extract_sensor_values. case_bool_decide as Hempty.
    - split; [done|]. by intros [? _].
    - rewrite read_sensors_returns. split.
      + intros (new & -> & Hall). done.
      + intros [_ Hall]. by exists sensor_values. }
  split; [exact Hiff|]. intros [_ Hall]%Hiff.
  apply Forall2_length in Hall. rewrite length_seq in Hall.
  split; [done|]. intros m Hloaded. unfold sensor_model.predict.
  rewrite Hloaded. cbn. by rewrite bool_decide_eq_false_2 by (intros Hne; by apply Hne).
Qed.

Lemma read_sensors_fails data i n acc r :
  read_sensors data i n acc = inl r →
  ∃ k earlier,
    (k < n)%nat ∧ Forall2 (reads data) (seq i k) earlier ∧
    let key := "sensor" +:+ pretty (i + k)%nat in
    (data !! key = None ∧ r = Http 400 ("Missing " +:+ key) ∨
     ∃ x e, data !! key = Some x ∧ py_float x = inl e ∧ r = Http 500 (str e)).
Proof.
  revert i acc. induction n as [|n IH]; intros i acc; cbn; [done|].
  destruct (data !! ("sensor" +:+ pretty i)) as [x|] eqn:Hx.
  - destruct (py_float x) as [e|v] eqn:Hv.
    + intros [= <-]. exists 0%nat, []. split; [lia|]. split; [constructor|].
      rewrite Nat.add_0_r. right. by exists x, e.
    + intros (k & earlier & Hk & Hall & Hcase)%IH.
      exists (S k), (v :: earlier). split; [lia|]. split.
      * cbn. constructor; [by exists x|done].
      * by replace (i + S k)%nat with (S i + k)%nat by lia.
  - intros [= <-]. exists 0%nat, []. split; [lia|]. split; [constructor|].
    rewrite Nat.add_0_r. by left.
Qed.

(** X23: when the endpoint answers with an error instead, the body is
    empty (400 "No data provided"), or the first sensor that is not both
    present and convertible is missing (400 "Missing sensor<i>") or fails to
    convert (500 with the exception text); later sensors are not looked
    at. *)
Theorem extract_sensor_values_fails (data : gmap string J) r :
  extract_sensor_values data = inl r →
  data = ∅ ∧ r = Http 400 "No data provided" ∨
  ∃ i earlier,
    (1 ≤ i ≤ 7)%nat ∧ Forall2 (reads data) (seq 1 (i - 1)) earlier ∧
    let key := "sensor" +:+ pretty i in
    (data !! key = None ∧ r = Http 400 ("Missing " +:+ key) ∨
     ∃ x e, data !! key = Some x ∧ py_float x = inl e ∧ r = Http 500 (str e)).
Proof.
  unfold api_predict.extract_sensor_values. case_bool_decide as Hempty.
  - intros [= <-]. by left.
  - intros (k & earlier & Hk & Hall & Hcase)%read_sensors_fails. right.
    exists (1 + k)%nat, earlier. split; [lia|].
    replace (1 + k - 1)%nat with k by lia. done.
Qed.

(** X24: the reason logged in fusion mode.  When the call had no frame the
    reason is "Both models agree"; when the camera adapter raised on the
    frame it is "Conflict: S=<sensor label>, C=" with an empty camera
    label, provided the sensor label is not empty. *)
Theorem fusion_reason_of_fallback (self : FusionLogic Frame F) sensor_values
    sensor_label sensor_confidence log :
  mode self = "fusion" →
  model_predict (sensor_model self) sensor_values =
    inr (sensor_label, sensor_confidence) →
  (∃ metadata log',
     predict self sensor_values None log =
       (inr (sensor_label, sensor_confidence, metadata), log') ∧
     fusion_reason "fusion" metadata = inr (Some "Both models agree")) ∧
  (∀ frame e,
     model_predict (camera_model self) (Some frame) = inl e →
     sensor_label ≠ "" →
     ∃ metadata log',
       predict self sensor_values (Some frame) log =
         (inr (sensor_label, sensor_confidence, metadata), log') ∧
       fusion_reason "fusion" metadata =
         inr (Some ("Conflict: S=" +:+ sensor_label +:+ ", C="))).
Proof.
  intros Hmode Hs. split.
  - rewrite (predict_fusion_mode _ _ _ _ Hmode). run_M. rewrite Hs.
    eexists _, _. split; [reflexivity|]. reflexivity.
  - intros frame e Hc Hlabel. rewrite (predict_fusion_mode _ _ _ _ Hmode). run_M.
    rewrite Hs, Hc. eexists _, _. split; [reflexivity|].
    unfold api_predict.fusion_reason. cbn [String.eqb Ascii.eqb Bool.eqb].
    rewrite lookup_insert_ne, lookup_insert_ne, lookup_insert_ne by done.
    rewrite lookup_insert_ne, lookup_insert_eq by done. cbn.
    by destruct sensor_label.
Qed.

(** X25: the reason logged in auto mode follows [camera_used] alone: it
    reads "Sensor low (<confidence>), camera activated" exactly when the
    sensor confidence was below the threshold and the camera adapter
    returned on a frame; when the confidence was below the threshold but the
    frame was missing or the camera raised, it still reads
    "Sensor confident (<confidence>)". *)
Theorem fusion_reason_of_auto (self : FusionLogic Frame F) sensor_values camera_frame
    sensor_label sensor_confidence log :
  mode self = "auto" →
  model_predict (sensor_model self) sensor_values =
    inr (sensor_label, sensor_confidence) →
  let camera_answered :=
    match camera_frame, model_predict (camera_model self) camera_frame with
    | Some _, inr _ => negb (fge sensor_confidence (auto_threshold self))
    | _, _ => false
    end in
  ∃ label confidence metadata log',
    predict self sensor_values camera_frame log =
      (inr (label, confidence, metadata), log') ∧
    fusion_reason "auto" metadata =
      inr (Some
        (if camera_answered
         then "Sensor low (" +:+ format_2f sensor_confidence +:+ "), camera activated"
         else "Sensor confident (" +:+ format_2f sensor_confidence +:+ ")")).
Proof.
  intros Hmode Hs camera_answered. subst camera_answered.
  rewrite (predict_auto_mode _ _ _ _ Hmode). run_M. rewrite Hs.
  destruct (fge sensor_confidence (auto_threshold self)) eqn:Hge.
  - eexists _, _, _, _. split; [reflexivity|].
    destruct camera_frame as [f|]; [|reflexivity].
    destruct (model_predict (camera_model self) (Some f)); reflexivity.
  - destruct camera_frame as [f|].
    + destruct (model_predict (camera_model self) (Some f)) as [e|[cl cc]] eqn:Hc;
        eexists _, _, _, _; (split; reflexivity).
    + eexists _, _, _, _. split; reflexivity.
Qed.

End handler.

Lemma extract_sensor_values_returns_witness :
  api_predict.extract_sensor_values inr examples.body = inr examples.sensor_values ∧
  length examples.sensor_values = 7%nat.
Proof.
  split; [by vm_compute|].
  apply (extract_sensor_values_returns (J := Q) (F := Q) inr examples.body).
  by vm_compute.
Defined.

Lemma extract_sensor_values_fails_witness :
  api_predict.extract_sensor_values inr examples.short_body =
    inl (Http 400 "Missing sensor3") ∧
  (examples.short_body = ∅ ∧ Http 400 "Missing sensor3" = Http 400 "No data provided" ∨
   ∃ i earlier,
     (1 ≤ i ≤ 7)%nat ∧
     Forall2 (api_predict.reads inr examples.short_body) (seq 1 (i - 1)) earlier ∧
     let key := "sensor" +:+ pretty i in
     (examples.short_body !! key = None ∧
      Http 400 "Missing sensor3" = Http 400 ("Missing " +:+ key) ∨
      ∃ (x : Q) e, examples.short_body !! key = Some x ∧ inr x = inl e ∧
                   Http 400 "Missing sensor3" = Http 500 (str e))).
Proof.
  split; [by vm_compute|].
  apply (extract_sensor_values_fails (J := Q) (F := Q) inr examples.short_body).
  by vm_compute.
Defined.

Lemma fusion_reason_of_fallback_witness :
  ∃ metadata log',
    fusion_logic.predict elements
      (examples.arbiter "fusion" examples.confident_sensor)
      examples.sensor_values None [] =
      (inr ("Leaning_forward", 9 # 10, metadata), log') ∧
    api_predict.fusion_reason (λ _, "0.90") (λ _, true) (λ _, "") (λ _ _, true)
      "fusion" metadata = inr (Some "Both models agree").
Proof.
  destruct (fusion_reason_of_fallback (λ _, "0.90") (λ _, true) (λ _, "") (λ _ _, true)
              elements (examples.arbiter "fusion" examples.confident_sensor)
              examples.sensor_values "Leaning_forward" (9 # 10) []
              eq_refl eq_refl) as [Hnone _].
  exact Hnone.
Defined.

Lemma fusion_reason_of_auto_witness :
  ∃ label confidence metadata log',
    fusion_logic.predict elements
      (examples.arbiter "auto" examples.hesitant_sensor)
      examples.sensor_values (Some 0%nat) [] =
      (inr (label, confidence, metadata), log') ∧
    api_predict.fusion_reason (λ _, "0.60") (λ _, true) (λ _, "") (λ _ _, true)
      "auto" metadata = inr (Some "Sensor confident (0.60)").
Proof.
  exact (fusion_reason_of_auto (λ _, "0.60") (λ _, true) (λ _, "") (λ _ _, true)
           elements (examples.arbiter "auto" examples.hesitant_sensor)
           examples.sensor_values (Some 0%nat) "Leaning_forward" (6 # 10) []
           eq_refl eq_refl).
Defined.

End api_predict_more.

(** ** Daily statistics *)

Module db_manager_more.
Import db_manager.
Local Open Scope Z_scope.

Lemma count_if_split (p : PostureLog → bool) logs :
  count_if p logs + count_if (λ l, negb (p l)) logs = Z.of_nat (length logs).
Proof.
  unfold count_if. induction logs as [|l logs IH]; [done|].
  rewrite !filter_cons. destruct (p l) eqn:Hp; cbn.
  - rewrite decide_True by done. rewrite decide_False by done. cbn. lia.
  - rewrite decide_False by done. rewrite decide_True by done. cbn. lia.
Qed.

Lemma count_if_bounds (p : PostureLog → bool) logs :
  0 ≤ count_if p logs ≤ Z.of_nat (length logs).
Proof.
  pose proof (count_if_split p logs). unfold count_if in *. lia.
Qed.

Lemma Counter_snoc keys k :
  Counter (keys ++ [k]) =
  <[ k := default 0 (Counter keys !! k) + 1 ]> (Counter keys).
Proof. unfold Counter. by rewrite foldl_app. Qed.

Lemma Counter_lookup_keys keys p :
  Counter keys !! p =
  let n := Z.of_nat (length (filter (λ k, k = p) keys)) in
  if n =? 0 then None else Some n.
Proof.
  induction keys as [|k keys IH] using rev_ind; [done|].
  rewrite Counter_snoc. cbn zeta in *.
  rewrite filter_app, length_app, filter_cons, filter_nil.
  set (n := length (filter (λ k, k = p) keys)) in *.
  destruct (decide (k = p)) as [Heq|Hne].
  - rewrite Heq, lookup_insert_eq, IH. cbn [length].
    destruct (Z.eqb_spec (Z.of_nat n) 0) as [Hz|Hpos];
      destruct (Z.eqb_spec (Z.of_nat (n + 1)) 0) as [Hz'|Hpos']; try lia;
      cbn; f_equal; lia.
  - rewrite lookup_insert_ne by done. rewrite IH.
    cbn [length]. by rewrite Nat.add_0_r.
Qed.

Lemma Counter_lookup (key : PostureLog → string) logs p :
  Counter (key <$> logs) !! p =
  let n := count_if (λ l, String.eqb (key l) p) logs in
  if n =? 0 then None else Some n.
Proof.
  rewrite Counter_lookup_keys. unfold count_if.
  replace (length (filter (λ k, k = p) (key <$> logs)))
    with (length (filter (λ l, String.eqb (key l) p = true) logs)); [done|].
  induction logs as [|l logs IH]; [done|].
  rewrite fmap_cons, !filter_cons.
  destruct (String.eqb_spec (key l) p) as [Heq|Hne].
  - rewrite decide_True by done. rewrite (decide_True _ _ Heq). cbn. by rewrite IH.
  - rewrite decide_False by done. rewrite (decide_False _ _ Hne). exact IH.
Qed.

Lemma Counter_total keys :
  map_fold (λ _ n total, n + total) 0 (Counter keys) = Z.of_nat (length keys).
Proof.
  induction keys as [|k keys IH] using rev_ind; [done|].
  rewrite Counter_snoc, length_app. cbn [length].
  destruct (Counter keys !! k) as [n|] eqn:Hk; cbn [default].
  - rewrite <- (insert_delete_id (Counter keys) k n Hk) in IH.
    rewrite map_fold_insert_L in IH; [|intros; lia|apply lookup_delete_eq].
    rewrite <- insert_delete_eq.
    rewrite map_fold_insert_L; [|intros; lia|apply lookup_delete_eq].
    unfold Datatypes.id. lia.
  - rewrite map_fold_insert_L; [|intros; lia|done]. lia.
Qed.

(** X26: the statistics of a day, recomputed from its logs, are
    consistent whatever the row held before: correct and bad counts add up
    to the number of detections, warnings are no more than detections, the
    distribution maps each posture that occurs to its number of occurrences
    and holds no other key, and its counts add up to the number of
    detections. *)
Theorem daily_statistics_consistent (old : option DailyStatistics) logs :
  let stats := _update_daily_statistics old logs in
  total_detections stats = Z.of_nat (length logs) ∧
  correct_posture_count stats + bad_posture_count stats = total_detections stats ∧
  0 ≤ total_warnings stats ≤ total_detections stats ∧
  (∀ p n, posture_distribution stats !! p = Some n ↔
          0 < n ∧ n = count_if (λ l, String.eqb (posture l) p) logs) ∧
  map_fold (λ _ n total, n + total) 0 (posture_distribution stats) =
    total_detections stats ∧
  _update_daily_statistics None logs = stats.
Proof.
  cbn. split; [done|]. split; [apply count_if_split|].
  split; [apply count_if_bounds|].
  split; [|split; [by rewrite Counter_total, length_fmap|done]].
  intros p n. rewrite Counter_lookup. cbn zeta.
  pose proof (count_if_bounds (λ l, String.eqb (posture l) p) logs) as Hb.
  destruct (Z.eqb_spec (count_if (λ l, String.eqb (posture l) p) logs) 0) as [Hz|Hnz].
  - split; [done|]. intros [Hpos ->]. lia.
  - split.
    + intros [= <-]. split; [lia|done].
    + by intros [_ ->].
Qed.

(** X27: a log counts as correct only under the label "Sitting_upright",
    which is not one of [config.POSTURE_LABELS]: when every logged posture
    is one of those labels, "Correct_posture" included, the correct count
    and the correct percentage are 0 and every detection counts as bad. *)
Theorem configured_labels_never_correct (old : option DailyStatistics) logs :
  Forall (λ l, posture l ∈ config.POSTURE_LABELS) logs →
  let stats := _update_daily_statistics old logs in
  correct_posture_count stats = 0 ∧
  bad_posture_count stats = total_detections stats ∧
  Qeq (correct_pct (get_posture_summary (Some stats))) 0.
Proof.
  intros Hall. cbn zeta.
  assert (Hzero : count_if (λ l, String.eqb (posture l) "Sitting_upright") logs = 0).
  { unfold count_if. induction Hall as [|l logs Hl _ IH]; [done|].
    rewrite filter_cons. rewrite decide_False; [exact IH|].
    intros Heq%String.eqb_eq. rewrite Heq in Hl.
    apply (bool_decide_pack _) in Hl. by vm_compute in Hl. }
  pose proof (count_if_split (λ l, String.eqb (posture l) "Sitting_upright") logs) as Hsplit.
  cbn. rewrite Hzero in *. split; [done|]. split; [lia|].
  unfold Qdiv. by rewrite Qmult_0_l, Qmult_0_l.
Qed.


(** X29: over the logs of one day the range statistics agree with the
    daily statistics and their summary: the same detections, correct and bad
    counts, warnings and posture distribution, and the same percentage
    before rounding; the counts of the mode distribution add up to the
    number of detections. *)
Theorem range_statistics_agree_with_daily (old : option DailyStatistics) logs :
  let stats := _update_daily_statistics old logs in
  let range := get_statistics_by_date_range logs in
  range_total_detections range = total_detections stats ∧
  range_correct_posture_count range = correct_posture_count stats ∧
  range_bad_posture_count range = bad_posture_count stats ∧
  range_total_warnings range = total_warnings stats ∧
  range_posture_distribution range = posture_distribution stats ∧
  range_correct_percentage range = correct_pct (get_posture_summary (Some stats)) ∧
  map_fold (λ _ n total, n + total) 0 (range_mode_distribution range) =
    range_total_detections range.
Proof.
  destruct logs as [|l logs]; [by vm_compute|].
  set (all := l :: logs). cbn zeta.
  pose proof (count_if_split (λ l, String.eqb (posture l) "Sitting_upright") all) as Hsplit.
  assert (Hpos : 0 < Z.of_nat (length all)) by (cbn [all length]; lia).
  change (get_statistics_by_date_range all) with
    (let total := Z.of_nat (length all) in
      let correct := count_if (λ l, String.eqb (posture l) "Sitting_upright") all in
      let warnings := count_if warning_flag all in
      {| range_total_detections := total;
         range_correct_posture_count := correct;
         range_bad_posture_count := total - correct;
         range_total_warnings := warnings;
         range_correct_percentage :=
           if 0 <? total then (inject_Z correct / inject_Z total * 100)%Q else 0;
         range_posture_distribution := Counter (posture <$> all);
         range_mode_distribution := Counter (mode <$> all) |}).
  cbn zeta.
  cbn [range_total_detections range_correct_posture_count range_bad_posture_count
       range_total_warnings range_correct_percentage range_posture_distribution
       range_mode_distribution _update_daily_statistics get_posture_summary
       total_detections total_warnings correct_posture_count bad_posture_count
       posture_distribution correct_pct].
  cbv beta in Hsplit.
  split; [done|]. split; [done|]. split; [lia|]. split; [done|]. split; [done|].
  split.
  - destruct (Z.ltb_spec 0 (Z.of_nat (length all))); [|lia].
    destruct (Z.eqb_spec (Z.of_nat (length all)) 0); [lia|done].
  - by rewrite Counter_total, length_fmap.
Qed.

Lemma configured_labels_never_correct_witness :
  let logs := [ {| posture := "Correct_posture"; mode := "auto"; warning_flag := false |};
                {| posture := "Correct_posture"; mode := "auto"; warning_flag := false |} ] in
  correct_posture_count (_update_daily_statistics None logs) = 0 ∧
  bad_posture_count (_update_daily_statistics None logs) = 2.
Proof.
  intros logs.
  destruct (configured_labels_never_correct None logs) as (Hcorrect & Hbad & _).
  - repeat constructor; apply (bool_decide_unpack _); by vm_compute.
  - split; [exact Hcorrect|exact Hbad].
Defined.

End db_manager_more.
